(** * mapca: order selection for PCA on a moving-average process

    A shallow embedding of [ma_pca] (src/mapca/mapca.py) and the properties
    of its stages.

    Conventions of the embedding.
    - An n-dimensional numpy array is a shape and its elements in row-major
      (C) order, numpy's default layout; [np.reshape(.., order="F")] is the
      index permutation numpy documents for it.
    - Spatial lags, subsampling depths, mask entries and component indices
      are integers in the source and are exact here ([Z], [nat]); medians of
      integer arrays are rationals ([Q]).
    - Every other array element is a numpy scalar of an abstract type [F]
      with numpy's operations as an interface ([Numerics]); so is the root
      [np.power(.., 1 / dim_n)] of lines 120-121, which float64 does not
      compute exactly.
    - [utils] and scikit-learn are imported by the source but are not part
      of it: their functions are fields of [Collaborators] and may raise. *)

From Stdlib Require Import String.
From Stdlib Require Import List Arith ZArith QArith Qround Bool Lia.
From Stdlib Require Import Sorted.
Import ListNotations.

Set Implicit Arguments.
Close Scope Q_scope.
Open Scope string_scope.
Open Scope list_scope.
Open Scope nat_scope.

(** ** Exceptions and results *)

Inductive exn : Type :=
| ValueError (msg : string)
| IndexError (msg : string)
| UnboundLocalError (name : string)
| OverflowError (msg : string)
| Raised (origin : string).

Inductive result (A : Type) : Type :=
| Ok (a : A)
| Err (e : exn).

Arguments Ok {A} a.
Arguments Err {A} e.

Definition bind {A B : Type} (c : result A) (k : A -> result B) : result B :=
  match c with
  | Ok a => k a
  | Err e => Err e
  end.

Notation "x <- c ;; k" := (bind c (fun x => k))
  (at level 61, c at next level, right associativity).
Notation "' pat <- c ;; k" := (bind c (fun x => match x with pat => k end))
  (at level 61, pat pattern, c at next level, right associativity).

Definition is_ok {A : Type} (r : result A) : bool :=
  match r with Ok _ => true | Err _ => false end.

(** ** Arrays *)

Record ndarray (A : Type) : Type := mk_ndarray {
  shape : list nat;
  cdata : list A
}.

Arguments mk_ndarray {A} shape cdata.

(** [np.prod] of a shape. *)
Definition prod (l : list nat) : nat := fold_right Nat.mul 1 l.

Definition wf {A : Type} (a : ndarray A) : Prop :=
  length (cdata a) = prod (shape a).

(** Row-major (C) linear index of a multi-index, and back. *)
Fixpoint ravel_C (sh idx : list nat) : nat :=
  match sh, idx with
  | _ :: sh', i :: idx' => i * prod sh' + ravel_C sh' idx'
  | _, _ => 0
  end.

Fixpoint unravel_C (sh : list nat) (k : nat) : list nat :=
  match sh with
  | [] => []
  | _ :: sh' => (k / prod sh') :: unravel_C sh' (k mod prod sh')
  end.

(** Column-major (Fortran) linear index: the first axis varies fastest. *)
Fixpoint ravel_F (sh idx : list nat) : nat :=
  match sh, idx with
  | n :: sh', i :: idx' => i + n * ravel_F sh' idx'
  | _, _ => 0
  end.

Fixpoint unravel_F (sh : list nat) (k : nat) : list nat :=
  match sh with
  | [] => []
  | n :: sh' => (k mod n) :: unravel_F sh' (k / n)
  end.

(** A multi-index is in range when it has one coordinate per axis, each
    below the extent of its axis. *)
Definition in_range (idx sh : list nat) : Prop := Forall2 lt idx sh.

(** [a[idx]]. *)
Definition get {A : Type} (a : ndarray A) (idx : list nat) : option A :=
  nth_error (cdata a) (ravel_C (shape a) idx).

(** The elements of [l] at the positions [ix], in that order. *)
Definition gather {A : Type} (l : list A) (ix : list nat) : list A :=
  flat_map (fun i => match nth_error l i with Some x => [x] | None => [] end) ix.

(** [np.reshape(a, newshape, order="F")] reads the elements in Fortran index
    order and places them in Fortran index order: the element at Fortran
    position [f] of the result is the element at Fortran position [f] of
    [a]. [source_position] is the row-major position in an array of shape
    [old] of the element that goes to row-major position [c] of the shape
    [new]. *)
Definition source_position (old new : list nat) (c : nat) : nat :=
  ravel_C old (unravel_F old (ravel_F new (unravel_C new c))).

(** A size mismatch raises [ValueError]. *)
Definition reshape_F {A : Type} (a : ndarray A) (newshape : list nat)
  : result (ndarray A) :=
  if prod (shape a) =? prod newshape then
    Ok (mk_ndarray newshape
          (gather (cdata a)
             (map (source_position (shape a) newshape)
                  (seq 0 (prod newshape)))))
  else Err (ValueError "cannot reshape array").

(** ** Integer and rational helpers of numpy *)

(** Insertion sort, the order of [np.sort]/[np.unique]/[np.median]. *)
Fixpoint insert_sorted {A : Type} (leb : A -> A -> bool) (x : A) (l : list A)
  : list A :=
  match l with
  | [] => [x]
  | y :: l' => if leb x y then x :: l else y :: insert_sorted leb x l'
  end.

Definition sort_by {A : Type} (leb : A -> A -> bool) (l : list A) : list A :=
  fold_right (insert_sorted leb) [] l.

(** Removal of adjacent duplicates (of a sorted list). *)
Fixpoint dedup (l : list nat) : list nat :=
  match l with
  | [] => []
  | x :: l' =>
      match l' with
      | y :: _ => if x =? y then dedup l' else x :: dedup l'
      | [] => [x]
      end
  end.

(** [np.unique] on an index array: sorted ascending, duplicates removed. *)
Definition np_unique (l : list nat) : list nat := dedup (sort_by Nat.leb l).

(** [np.round] of a rational: to the nearest integer, halves to the even
    neighbour. *)
Definition np_round (q : Q) : Z :=
  let f := Qfloor q in
  let r := (q - inject_Z f)%Q in
  match (r ?= 1 # 2)%Q with
  | Lt => f
  | Gt => (f + 1)%Z
  | Eq => if Z.even f then f else (f + 1)%Z
  end.

(** [np.median] of an array of integers; [None] is the [nan] of an empty
    array. *)
Definition np_median (l : list Z) : option Q :=
  let s := sort_by Z.leb l in
  let n := length s in
  if n =? 0 then None
  else if Nat.odd n then Some (inject_Z (nth (n / 2) s 0%Z))
  else Some ((inject_Z (nth (n / 2 - 1) s 0%Z) + inject_Z (nth (n / 2) s 0%Z)) / 2)%Q.

(** [np.sum(a == v)] for an integer array. *)
Definition count_eq (v : Z) (l : list Z) : nat :=
  length (filter (fun x => (x =? v)%Z) l).

(** [np.sum] of an integer array. *)
Definition zsum (l : list Z) : Z := fold_right Z.add 0%Z l.

(** A float that holds an integer, an infinity or [nan]. *)
Inductive xint : Type :=
| Finite (z : Z)
| Infinite
| NaN.

(** [np.round(s / np.power(depth, d))]: division of a float by the integer
    [depth ** d]; by zero it gives an infinity, or [nan] for [0 / 0]. *)
Definition effective_samples (s depth : Z) (d : nat) : xint :=
  let den := (depth ^ Z.of_nat d)%Z in
  if (den =? 0)%Z then (if (s =? 0)%Z then NaN else Infinite)
  else Finite (np_round (inject_Z s / inject_Z den)%Q).

(** ["... %d" % N] for a float [N]: formatting raises on an infinity and on
    [nan]. *)
Definition format_int (n : xint) : result Z :=
  match n with
  | Finite z => Ok z
  | Infinite => Err (OverflowError "cannot convert float infinity to integer")
  | NaN => Err (ValueError "cannot convert float NaN to integer")
  end.

(** ** numpy scalars *)

(** The numpy scalars held by the data, the eigenvalues and the criterion
    curves ([float64], or [complex128] where a collaborator returns complex
    values), with the numpy operations the source applies to them. The
    operations are left open, but for one law of floating point arithmetic,
    [root_of_zero]: the root that lines 120-121 take of a zero sum is
    zero. *)
Class Numerics : Type := {
  F : Type;
  of_Q : Q -> F;                   (* a literal, or an integer as a float *)
  fadd : F -> F -> F;
  fsub : F -> F -> F;
  fmul : F -> F -> F;
  fdiv : F -> F -> F;
  fneg : F -> F;
  fpow : F -> F -> F;              (* np.power *)
  flog : F -> F;                   (* np.log *)
  flt : F -> F -> bool;            (* x < y *)
  fle : F -> F -> bool;            (* x <= y *)
  feq : F -> F -> bool;            (* x == y *)
  freal : F -> F;                  (* np.real *)
  fimag : F -> F;                  (* np.imag *)
  np_sum : list F -> F;
  np_prod : list F -> F;
  np_mean : list F -> F;
  np_min : list F -> F;            (* np.min of a non-empty array *)
  np_floor : F -> F;               (* np.floor *)
  to_int : F -> result Z;          (* int(x): raises on nan and on an infinity *)
  (* IEEE 754 and Annex F of C: 0 / n is 0 for n > 0, pow(0, y) is 0 for
     y > 0 and floor(0) is 0, which is below every positive integer and
     which int turns into 0. *)
  root_of_zero : forall (nt d : nat) (m : Z),
    nt <> 0 -> d <> 0 -> (1 <= m)%Z ->
    let root :=
      np_floor (fpow (fdiv (of_Q 0) (of_Q (inject_Z (Z.of_nat nt))))
                     (fdiv (of_Q 1) (of_Q (inject_Z (Z.of_nat d))))) in
    flt root (of_Q (inject_Z m)) = true /\ to_int root = Ok 0%Z
}.

Section Matrices.

Context {num : Numerics}.

Definition of_Z (z : Z) : F := of_Q (inject_Z z).
Definition of_nat (n : nat) : F := of_Z (Z.of_nat n).

(** [np.finfo(float).eps], 2^-52. *)
Definition eps : F := of_Q (1 # 4503599627370496).

(** Truth value of a numpy scalar in [if x:]. *)
Definition truthy (x : F) : bool := negb (feq x (of_Q 0)).

(** *** Matrices *)

(** [a[i, j]] of a two-dimensional array with [c] columns; zero stands for
    a cell outside the array. *)
Definition cell (c : nat) (d : list F) (i j : nat) : F :=
  nth (i * c + j) d (of_Q 0).

(** [np.dot] of two matrices. *)
Definition dot (a b : ndarray F) : result (ndarray F) :=
  match shape a, shape b with
  | [n; k], [k'; m] =>
      if k =? k' then
        Ok (mk_ndarray [n; m]
              (flat_map (fun i =>
                 map (fun j =>
                   np_sum (map (fun l => fmul (cell k (cdata a) i l)
                                             (cell m (cdata b) l j))
                               (seq 0 k)))
                   (seq 0 m))
                 (seq 0 n)))
      else Err (ValueError "shapes not aligned")
  | _, _ => Err (ValueError "shapes not aligned")
  end.

(** [v[:, ::-1]]: the columns in reverse order. *)
Definition reverse_columns (v : ndarray F) : ndarray F :=
  match shape v with
  | [r; c] =>
      mk_ndarray [r; c]
        (flat_map (fun i => rev (firstn c (skipn (i * c) (cdata v)))) (seq 0 r))
  | _ => v
  end.

(** [a.T] of a matrix. *)
Definition transpose (a : ndarray F) : ndarray F :=
  match shape a with
  | [r; c] =>
      mk_ndarray [c; r]
        (flat_map (fun j => map (fun i => cell c (cdata a) i j) (seq 0 r))
                  (seq 0 c))
  | _ => a
  end.

(** [np.diag(1.0 / s)]. *)
Definition diag_inv (s : list F) : ndarray F :=
  let n := length s in
  mk_ndarray [n; n]
    (flat_map (fun i =>
       map (fun j => if i =? j then fdiv (of_Q 1) (nth i s (of_Q 0))
                     else of_Q 0)
           (seq 0 n))
       (seq 0 n)).

(** [a[:, j]]; an index past the last column raises [IndexError]. *)
Definition column (a : ndarray F) (j : nat) : result (list F) :=
  match shape a with
  | [r; c] =>
      if j <? c then Ok (map (fun i => cell c (cdata a) i j) (seq 0 r))
      else Err (IndexError "index is out of bounds for axis 1")
  | _ => Err (IndexError "too many indices for array")
  end.

End Matrices.

(** ** Boolean masks *)

Section Masks.

Variable A : Type.

(** [a[mask == 1, :]]: the rows of a matrix at which the mask is one. *)
Definition select_rows (mask : list Z) (a : ndarray A) : ndarray A :=
  match shape a with
  | [r; c] =>
      mk_ndarray [count_eq 1 mask; c]
        (flat_map (fun i => if (nth i mask 0 =? 1)%Z
                            then firstn c (skipn (i * c) (cdata a)) else [])
                  (seq 0 r))
  | _ => a
  end.

(** The contents of [x] after [x = np.zeros(len(mask)); x[mask == 1] = vals]
    when [vals] has one value per selected position. *)
Fixpoint scatter (zero : A) (mask : list Z) (vals : list A) : list A :=
  match mask with
  | [] => []
  | m :: mask' =>
      if (m =? 1)%Z then
        match vals with
        | v :: vals' => v :: scatter zero mask' vals'
        | [] => zero :: scatter zero mask' []
        end
      else zero :: scatter zero mask' vals
  end.

(** [x = np.zeros(len(mask)); x[mask == 1] = vals]: numpy accepts one value
    per selected position, or a single value that it repeats. *)
Definition masked_assign (zero : A) (mask : list Z) (vals : list A)
  : result (list A) :=
  let n := count_eq 1 mask in
  if length vals =? n then Ok (scatter zero mask vals)
  else if length vals =? 1 then Ok (scatter zero mask (repeat (hd zero vals) n))
  else Err (ValueError "cannot assign the input values where the mask is true").

(** The elements of [l] at which the mask is one. *)
Fixpoint select (mask : list Z) (l : list A) : list A :=
  match mask, l with
  | m :: mask', x :: l' =>
      if (m =? 1)%Z then x :: select mask' l' else select mask' l'
  | _, _ => []
  end.

(** [l[mask == 1]]: the boolean index must be as long as the array. *)
Definition masked_select (mask : list Z) (l : list A) : result (list A) :=
  if length mask =? length l then Ok (select mask l)
  else Err (IndexError "boolean index did not match indexed array").

(** A loop whose body may raise: the results in order, or the first
    exception. *)
Fixpoint for_each {B : Type} (body : B -> result A) (l : list B)
  : result (list A) :=
  match l with
  | [] => Ok []
  | x :: l' => y <- body x ;; ys <- for_each body l' ;; Ok (y :: ys)
  end.

End Masks.

(** ** Collaborators *)

(** What [PCA(n_components, svd_solver="full", copy=False).fit(data)] leaves
    behind: the fitted attributes and, because of [copy=False], the contents
    of the array [data] itself. *)
Record pca_fitted {num : Numerics} : Type := {
  data_after_fit : ndarray F;
  components_ : ndarray F;
  explained_variance_ : list F;
  explained_variance_ratio_ : list F
}.

(** The functions of [utils] and of scikit-learn that [ma_pca] calls. *)
Record Collaborators {num : Numerics} : Type := {
  (* utils._icatb_svd(data, n_comps) -> V, Lambda *)
  icatb_svd : ndarray F -> nat -> result (ndarray F * list F);
  (* utils._kurtn(data): one statistic per column, as a single column *)
  kurtn : ndarray F -> result (list F);
  (* utils._est_indp_sp(x)[0]: the lag of a volume *)
  est_indp_sp : ndarray F -> result Z;
  (* utils._subsampling(x, depth), for masks and for volumes *)
  subsampling : forall A : Type, ndarray A -> Z -> result (ndarray A);
  (* utils._eigensp_adj(lam, n, p) *)
  eigensp_adj : list F -> Z -> nat -> result (list F);
  (* StandardScaler(with_mean=True, with_std=True).fit_transform(x) *)
  scaler_fit_transform : ndarray F -> result (ndarray F);
  (* PCA(n_components=n, svd_solver="full", copy=False).fit(x) *)
  pca_fit : nat -> ndarray F -> result pca_fitted
}.

(** ** The pipeline *)

Section MaPca.

Context {num : Numerics} (co : Collaborators).

(** *** Lines 53-62: masking and flattening *)

(** [data_nib_V[maskvec == 1, :]] together with the spatial extents, the
    number of time points and the flattened mask. *)
Definition mask_and_flatten (data_nib : ndarray F) (mask_nib : ndarray Z)
  : result (list nat * nat * list Z * ndarray F) :=
  match shape data_nib with
  | [Nx; Ny; Nz; Nt] =>
      data_nib_V <- reshape_F data_nib [Nx * Ny * Nz; Nt] ;;
      maskvec <- reshape_F mask_nib [Nx * Ny * Nz] ;;
      Ok ([Nx; Ny; Nz], Nt, cdata maskvec,
          select_rows (cdata maskvec) data_nib_V)
  | _ => Err (ValueError "wrong number of values to unpack")
  end.

(** *** Lines 76-99: the Gaussian components that serve as probes *)

(** [kurtv1[:, 0]] after line 77: the statistic, or 1000 where the
    eigenvalue is above the mean eigenvalue. *)
Definition mark_large (kurt EigenValues : list F) : list F :=
  let mean := np_mean EigenValues in
  map (fun ke => if flt mean (snd ke) then of_Q 1000 else fst ke)
      (combine kurt EigenValues).

(** The test of lines 80-82 on one component. *)
Definition gaussian_like (k e : F) : bool :=
  flt k (of_Q (3 # 10)) && flt (of_Q 0) k && flt eps e.

(** [idx_gauss]: the positions that pass the test, ascending. *)
Definition idx_gauss (kurtv1 EigenValues : list F) : list nat :=
  filter (fun i => gaussian_like (nth i kurtv1 (of_Q 0))
                                 (nth i EigenValues (of_Q 0)))
         (seq 0 (length EigenValues)).

(** [dfs]: the number of eigenvalues above machine epsilon. *)
Definition degrees_of_freedom (EigenValues : list F) : nat :=
  length (filter (fun e => flt eps e) EigenValues).

(** [l[a:b]] for [0 <= a]. *)
Definition slice {A : Type} (a b : nat) (l : list A) : list A :=
  firstn (b - a) (skipn a l).

(** [l[-n:]] for [0 < n]. *)
Definition last_n {A : Type} (n : nat) (l : list A) : list A :=
  skipn (length l - n) l.

(** Lines 90-99. *)
Definition pick_probes (idx : list nat) (dfs : nat) : list nat :=
  let minTp := 12 in
  np_unique
    (if minTp <=? length idx then
       let middle := Z.to_nat (np_round (Z.of_nat (length idx) # 2)) in
       firstn 4 idx ++ slice (middle - 1) (middle + 3) idx ++ last_n 4 idx
     else
       let minTp := Nat.min minTp dfs in
       seq (dfs - minTp) minTp).

(** Lines 76-99; the boolean index of line 77 must be as long as
    [kurtv1]. *)
Definition select_probes (kurt EigenValues : list F) : result (list nat) :=
  if length kurt =? length EigenValues then
    let kurtv1 := mark_large kurt EigenValues in
    Ok (pick_probes (idx_gauss kurtv1 EigenValues)
                    (degrees_of_freedom EigenValues))
  else Err (IndexError "boolean index did not match indexed array").

(** *** Lines 103-117: the subsampling depth of each probe *)

(** Lines 107-109 and 130-132: a column of in-mask values as a volume. *)
Definition to_volume (sp : list nat) (maskvec : list Z) (vals : list F)
  : result (ndarray F) :=
  x_single <- masked_assign (of_Q 0) maskvec vals ;;
  reshape_F (mk_ndarray [prod sp] x_single) sp.

(** Lines 107-110 for the component at column [j]. *)
Definition probe_depth (sp : list nat) (maskvec : list Z) (dataN : ndarray F)
  (j : nat) : result Z :=
  vals <- column dataN j ;;
  x_single <- to_volume sp maskvec vals ;;
  lag <- est_indp_sp co x_single ;;
  Ok (lag + 1)%Z.

(** The loop of lines 106-117. [todo] holds the probes from position [i]
    on, [sub_iid_sp] the depths stored at the positions before [i]. The
    result is the array [sub_iid_sp] that line 119 reads. *)
Fixpoint depth_loop (depth_of : nat -> result Z) (todo : list nat) (i : nat)
  (sub_iid_sp : list Z) : result (list Z) :=
  match todo with
  | [] => Ok sub_iid_sp
  | j :: todo' =>
      d <- depth_of j ;;
      let sub_iid_sp := sub_iid_sp ++ [d] in
      if 6 <? i then
        let tmp_sub_sp := firstn i sub_iid_sp in
        match np_median tmp_sub_sp with
        | Some m =>
            let tmp_sub_median := np_round m in
            if 6 <? count_eq tmp_sub_median tmp_sub_sp then Ok tmp_sub_sp
            else depth_loop depth_of todo' (S i) sub_iid_sp
        | None => depth_loop depth_of todo' (S i) sub_iid_sp
        end
      else depth_loop depth_of todo' (S i) sub_iid_sp
  end.

(** *** Lines 119-122: the depth and the effective number of samples *)

(** Line 119. The median of an empty array is [nan], which [int] refuses. *)
Definition median_depth (sub_iid_sp : list Z) : result Z :=
  match np_median sub_iid_sp with
  | Some m => Ok (np_round m)
  | None => Err (ValueError "cannot convert float NaN to integer")
  end.

(** [np.floor(np.power(s / nt, 1 / d))] of lines 120-121, in the floating
    point arithmetic of numpy, for the integer sum [s] of the mask. *)
Definition floor_root (s : Z) (nt d : nat) : F :=
  np_floor (fpow (fdiv (of_Z s) (of_nat nt)) (fdiv (of_Q 1) (of_nat d))).

(** Lines 120-121: when that float is below the median depth, the depth
    becomes [int] of it. *)
Definition clamp_depth (maskvec : list Z) (Nt dim_n : nat) (median : Z)
  : result Z :=
  let root := floor_root (zsum maskvec) Nt dim_n in
  if flt root (of_Z median) then to_int root else Ok median.

(** *** Lines 124-144: spatial resampling *)

(** Line 127, [np.zeros((int(np.sum(mask_s_1d)), Nt))]: the number of rows. *)
Definition row_count (mask_s_1d : list Z) : result nat :=
  let n := zsum mask_s_1d in
  if (n <? 0)%Z then Err (ValueError "negative dimensions are not allowed")
  else Ok (Z.to_nat n).

(** Line 135, [dat[:, i] = vals]: a column of [rows] cells takes as many
    values, or a single value repeated. *)
Definition column_assign (rows : nat) (vals : list F) : result (list F) :=
  if length vals =? rows then Ok vals
  else if length vals =? 1 then Ok (repeat (hd (of_Q 0) vals) rows)
  else Err (ValueError "could not broadcast input array").

(** Lines 130-135 for time point [i]. *)
Definition resample_column (sp : list nat) (maskvec : list Z)
  (data : ndarray F) (depth : Z) (mask_s_1d : list Z) (rows i : nat)
  : result (list F) :=
  vals <- column data i ;;
  x_single <- to_volume sp maskvec vals ;;
  dat0 <- subsampling co x_single depth ;;
  dat0 <- reshape_F dat0 [prod (shape dat0)] ;;
  picked <- masked_select mask_s_1d (cdata dat0) ;;
  column_assign rows picked.

(** The matrix whose columns are [cols], each of [rows] cells. *)
Definition of_columns (rows : nat) (cols : list (list F)) : ndarray F :=
  mk_ndarray [rows; length cols]
    (flat_map (fun r => map (fun col => nth r col (of_Q 0)) cols) (seq 0 rows)).

(** Lines 125-135: [dat], the subsampled data before normalization. *)
Definition resample (sp : list nat) (Nt : nat) (maskvec : list Z)
  (data : ndarray F) (depth : Z) : result (ndarray F) :=
  mask_ND <- reshape_F (mk_ndarray [prod sp] maskvec) sp ;;
  mask_s <- subsampling co mask_ND depth ;;
  mask_s_1d <- reshape_F mask_s [prod (shape mask_s)] ;;
  rows <- row_count (cdata mask_s_1d) ;;
  cols <- for_each (resample_column sp maskvec data depth (cdata mask_s_1d) rows)
                   (seq 0 Nt) ;;
  Ok (of_columns rows cols).

(** Lines 124-144: the eigenvalues that go into the adjustment. With a
    depth of one the eigenvalues of line 69 are kept. *)
Definition resampled_spectrum (sp : list nat) (Nt : nat) (maskvec : list Z)
  (data : ndarray F) (depth : Z) (EigenValues : list F) : result (list F) :=
  if (depth =? 1)%Z then Ok EigenValues
  else
    dat <- resample sp Nt maskvec data depth ;;
    dat <- scaler_fit_transform co dat ;;
    '(_, EigenValues) <- icatb_svd co dat Nt ;;
    Ok (rev EigenValues).

(** *** Lines 150-160: checks on the adjusted eigenvalues *)

(** Lines 152-153. *)
Definition check_imaginary (EigenValues : list F) : result unit :=
  if truthy (np_sum (map fimag EigenValues))
  then Err (ValueError "Invalid eigen value found for the subsampled data.")
  else Ok tt.

(** Lines 157-160. [np.min] of an empty selection raises. *)
Definition clamp_small (EigenValues : list F) : result (list F) :=
  if existsb (fun e => fle (freal e) eps) EigenValues then
    match filter (fun e => fle eps (freal e)) EigenValues with
    | [] => Err (ValueError "zero-size array to reduction operation minimum")
    | valid =>
        let m := np_min valid in
        Ok (map (fun e => if fle (freal e) eps then m else e) EigenValues)
    end
  else Ok EigenValues.

(** *** Lines 162-177: the criterion curves *)

(** The body of the loop at candidate order [k]: [(aic, kic, mdl)]. *)
Definition criteria_at (EigenValues : list F) (N : Z) (p k : nat)
  : F * F * F :=
  let p_k := of_Z (Z.of_nat p - Z.of_nat k) in
  let tail := skipn k EigenValues in
  let LH := flog (fdiv (np_prod (map (fun e => fpow e (fdiv (of_Q 1) p_k)) tail))
                       (np_mean tail)) in
  let mlh := fmul (fmul (fmul (of_Q (1 # 2)) (of_Z N)) p_k) LH in
  let df := fadd (of_Q 1)
                 (fmul (fmul (of_Q (1 # 2)) (of_nat k))
                       (of_Z (2 * Z.of_nat p - Z.of_nat k + 1))) in
  (fadd (fmul (of_Z (-2)) mlh) (fmul (of_Q 2) df),
   fadd (fmul (of_Z (-2)) mlh) (fmul (of_Q 3) df),
   fadd (fneg mlh) (fmul (fmul (of_Q (1 # 2)) df) (flog (of_Z N)))).

(** [itc]: the rows [aic], [kic] and [mdl], one entry per [k] in
    [np.arange(1, p)]. [np.zeros(p - 1)] raises for [p = 0]. *)
Definition criteria_curves (EigenValues : list F) (N : Z) (p : nat)
  : result (list (list F)) :=
  if p =? 0 then Err (ValueError "negative dimensions are not allowed")
  else
    let rows := map (criteria_at EigenValues N p) (seq 1 (p - 1)) in
    Ok [map (fun r => fst (fst r)) rows;
        map (fun r => snd (fst r)) rows;
        map (fun r => snd r) rows].

(** *** Lines 179-191: the selected order *)

(** Lines 179-184: [criteria_idx] stays unbound for any other string. *)
Definition criteria_idx (criteria : string) : option nat :=
  if String.eqb criteria "aic" then Some 0
  else if String.eqb criteria "kic" then Some 1
  else if String.eqb criteria "mdl" then Some 2
  else None.

(** [np.diff]. *)
Definition np_diff (l : list F) : list F :=
  map (fun ab => fsub (snd ab) (fst ab)) (combine l (tl l)).

(** Lines 186-191 on the chosen curve. *)
Definition select_order (curve : list F) : nat :=
  let dlap := np_diff curve in
  let a := map S (filter (fun i => flt (of_Q 0) (nth i dlap (of_Q 0)))
                         (seq 0 (length dlap))) in
  match a with
  | [] => length curve
  | k :: _ => k
  end.

(** Lines 179-191. Reading the unbound [criteria_idx] on line 186 raises. *)
Definition estimate_order (itc : list (list F)) (criteria : string)
  : result nat :=
  match criteria_idx criteria with
  | Some i => Ok (select_order (nth i itc []))
  | None => Err (UnboundLocalError "criteria_idx")
  end.

(** *** Lines 196-203: the decomposition at the selected order *)

Definition final_pca (data : ndarray F) (comp_est : nat)
  : result (ndarray F * list F * list F * ndarray F) :=
  ppca <- pca_fit co comp_est data ;;
  let data := data_after_fit ppca in
  let v := transpose (components_ ppca) in
  let s := explained_variance_ ppca in
  dv <- dot data v ;;
  u <- dot dv (diag_inv s) ;;
  Ok (u, s, explained_variance_ratio_ ppca, v).

(** *** [ma_pca] *)

(** Lines 53-122: everything up to the depth, that is the spatial extents,
    [Nt], [maskvec], [data], the eigenvalues of line 69, the depth
    [sub_iid_sp_median] and [N]. *)
Definition estimate_depth (data_nib : ndarray F) (mask_nib : ndarray Z)
  : result (list nat * nat * list Z * ndarray F * list F * Z * xint) :=
  '(sp, Nt, maskvec, data_non_normalized) <- mask_and_flatten data_nib mask_nib ;;
  _ <- scaler_fit_transform co data_non_normalized ;;
  let data := data_non_normalized in
  '(V, EigenValues) <- icatb_svd co data Nt ;;
  let EigenValues := rev EigenValues in
  dataN <- dot data (reverse_columns V) ;;
  kurtv1 <- kurtn co dataN ;;
  idx <- select_probes kurtv1 EigenValues ;;
  sub_iid_sp <- depth_loop (probe_depth sp maskvec dataN) idx 0 [] ;;
  median <- median_depth sub_iid_sp ;;
  let dim_n := length sp in
  sub_iid_sp_median <- clamp_depth maskvec Nt dim_n median ;;
  let N := effective_samples (zsum maskvec) sub_iid_sp_median dim_n in
  Ok (sp, Nt, maskvec, data, EigenValues, sub_iid_sp_median, N).

(** Lines 124-150: the adjusted eigenvalues, with [data], [Nt] and [N]. *)
Definition adjusted_spectrum (data_nib : ndarray F) (mask_nib : ndarray Z)
  : result (ndarray F * nat * Z * list F) :=
  '(sp, Nt, maskvec, data, EigenValues, depth, N) <-
     estimate_depth data_nib mask_nib ;;
  EigenValues <- resampled_spectrum sp Nt maskvec data depth EigenValues ;;
  N <- format_int N ;;
  EigenValues <- eigensp_adj co EigenValues N (length EigenValues) ;;
  Ok (data, Nt, N, EigenValues).

(** Lines 152-191: from the adjusted eigenvalues to [comp_est]. *)
Definition order_of_spectrum (EigenValues : list F) (N : Z) (Nt : nat)
  (criteria : string) : result nat :=
  _ <- check_imaginary EigenValues ;;
  EigenValues <- clamp_small EigenValues ;;
  itc <- criteria_curves EigenValues N Nt ;;
  estimate_order itc criteria.

Definition ma_pca (data_nib : ndarray F) (mask_nib : ndarray Z)
  (criteria : string) : result (ndarray F * list F * list F * ndarray F) :=
  '(data, Nt, N, EigenValues) <- adjusted_spectrum data_nib mask_nib ;;
  comp_est <- order_of_spectrum EigenValues N Nt criteria ;;
  final_pca data comp_est.

End MaPca.

(** ** A concrete interpretation, for running the pipeline *)

(** Numpy scalars as Gaussian rationals [(re, im)]: exact sums, products,
    quotients by a non-zero divisor and comparisons (on the real parts).
    Logarithm and power have no rational value: [x - 1] stands for the
    logarithm, and a power with exponent [1 / d] is the real [d]-th root of
    the real part rounded down to a multiple of 1/16 (float64 rounds to 53
    bits and to nearest instead, which matters next to an exact root such
    as [64 ** (1 / 3)]). The examples are chosen so that no outcome depends
    on the difference. *)
Module Exact.

Definition C : Type := (Q * Q)%type.

Definition mk (re im : Q) : C := (Qred re, Qred im).
Definition real (q : Q) : C := mk q 0.

Definition add (a b : C) : C := mk (fst a + fst b) (snd a + snd b).
Definition sub (a b : C) : C := mk (fst a - fst b) (snd a - snd b).
Definition mul (a b : C) : C :=
  mk (fst a * fst b - snd a * snd b) (fst a * snd b + snd a * fst b).
Definition div (a b : C) : C :=
  let n := (fst b * fst b + snd b * snd b)%Q in
  mk ((fst a * fst b + snd a * snd b) / n) ((snd a * fst b - fst a * snd b) / n).
Definition neg (a : C) : C := mk (- fst a) (- snd a).
Definition lt (a b : C) : bool := negb (Qle_bool (fst b) (fst a)).
Definition le (a b : C) : bool := Qle_bool (fst a) (fst b).
Definition eq (a b : C) : bool := Qeq_bool (fst a) (fst b) && Qeq_bool (snd a) (snd b).
Definition sum (l : list C) : C := fold_left add l (real 0).
Definition product (l : list C) : C := fold_left mul l (real 1).
Definition mean (l : list C) : C :=
  div (sum l) (real (inject_Z (Z.of_nat (length l)))).
Definition minimum (l : list C) : C :=
  match l with
  | [] => real 0
  | x :: l' => fold_left (fun m y => if lt y m then y else m) l' x
  end.

(** Search for the largest [r] with [r^d <= n], from [r] upwards. *)
Fixpoint root_search (fuel d : nat) (n r : Z) : Z :=
  match fuel with
  | O => r
  | S fuel' =>
      if ((r + 1) ^ Z.of_nat d <=? n)%Z
      then root_search fuel' d n (r + 1)%Z
      else r
  end.

(** The [d]-th root of a rational [q >= 0], rounded down to a multiple of
    1/16: the largest [r / 16] with [r^d <= q * 16^d]. *)
Definition root (q : Q) (d : positive) : Q :=
  let n := Qfloor (q * inject_Z (16 ^ Zpos d)) in
  root_search (Z.to_nat n) (Pos.to_nat d) n 0 # 16.

(** [np.power(x, y)] for [y = 1 / d]; the base stands for any other power,
    which the pipeline does not take. *)
Definition pow (x y : C) : C :=
  if (Qnum (fst y) =? 1)%Z then real (root (fst x) (Qden (fst y))) else x.

Definition floor (a : C) : C := real (inject_Z (Qfloor (fst a))).
Definition int (a : C) : result Z := Ok (Qfloor (fst a)).

#[export] Instance numerics : Numerics.
Proof.
  refine {|
    F := C;
    of_Q := real;
    fadd := add;
    fsub := sub;
    fmul := mul;
    fdiv := div;
    fneg := neg;
    fpow := pow;
    flog := fun x => sub x (real 1);
    flt := lt;
    fle := le;
    feq := eq;
    freal := fun a => mk (fst a) 0;
    fimag := fun a => mk (snd a) 0;
    np_sum := sum;
    np_prod := product;
    np_mean := mean;
    np_min := minimum;
    np_floor := floor;
    to_int := int;
    root_of_zero := _
  |}.
  intros nt d m _ _ Hm.
  set (y := div (real 1) (real (inject_Z (Z.of_nat d)))).
  set (b := div (real 0) (real (inject_Z (Z.of_nat nt)))).
  assert (Hb : (fst b == 0)%Q).
  { unfold b, div, mk. cbn [fst snd]. rewrite Qred_correct.
    change (fst (real 0)) with 0%Q. change (snd (real 0)) with 0%Q.
    unfold Qdiv. ring. }
  assert (H0 : Qfloor (fst (pow b y)) = 0%Z).
  { unfold pow. destruct (Qnum (fst y) =? 1)%Z.
    - unfold real, mk. cbn [fst]. rewrite Qred_correct. unfold root.
      assert (Hn : Qfloor (fst b * inject_Z (16 ^ Z.pos (Qden (fst y)))) = 0%Z)
        by (rewrite Hb, Qmult_0_l; reflexivity).
      rewrite Hn. reflexivity.
    - rewrite Hb. reflexivity. }
  cbv zeta. unfold floor. rewrite H0. split; [|reflexivity].
  unfold lt, real, mk. cbn [fst].
  destruct (Qle_bool (Qred (inject_Z m)) (Qred (inject_Z 0))) eqn:E;
    [|reflexivity].
  apply Qle_bool_iff in E. rewrite !Qred_correct in E.
  rewrite <- Zle_Qle in E. lia.
Defined.

(** The [n] by [m] matrix with ones on the diagonal. *)
Definition eye (n m : nat) : ndarray C :=
  mk_ndarray [n; m]
    (flat_map (fun i => map (fun j => if i =? j then real 1 else real 0) (seq 0 m))
              (seq 0 n)).

(** Collaborators that answer with fixed values: the identity as temporal
    basis, [spectrum] from the decomposition, [kurt] as kurtosis statistic
    of every component, [lag] as lag of every volume, no decimation, and
    [adjusted] (when given) in place of the adjusted eigenvalues. *)
Definition fixed (spectrum : list C) (kurt : C) (lag : Z)
  (adjusted : option (list C)) : Collaborators := {|
  icatb_svd := fun _ n => Ok (eye n n, spectrum);
  kurtn := fun dataN => Ok (repeat kurt (nth 1 (shape dataN) 0));
  est_indp_sp := fun _ => Ok lag;
  subsampling := fun _ a _ => Ok a;
  eigensp_adj := fun lam _ _ =>
    Ok (match adjusted with Some l => l | None => lam end);
  scaler_fit_transform := fun x => Ok x;
  pca_fit := fun n x =>
    Ok {| data_after_fit := x;
          components_ := eye n (nth 1 (shape x) 0);
          explained_variance_ := repeat (real 1) n;
          explained_variance_ratio_ :=
            repeat (div (real 1) (real (inject_Z (Z.of_nat n)))) n |}
|}.



End Exact.

(** A volume of two voxels and two time points, its mask, and a mask of
    the same two voxels laid out along the second axis. *)
Definition demo_data : ndarray Exact.C :=
  mk_ndarray [2; 1; 1; 2] (map Exact.real [1; 2; 3; 4]%Q).
Definition demo_mask : ndarray Z := mk_ndarray [2; 1; 1] [1; 1]%Z.
Definition demo_mask_transposed : ndarray Z := mk_ndarray [1; 2; 1] [1; 1]%Z.

(** Collaborators that return the ascending spectrum [1, 2], a statistic of
    0.1 and a lag of zero. *)
Definition demo_collaborators : Collaborators :=
  Exact.fixed (map Exact.real [1; 2]%Q) (Exact.real (1 # 10)) 0 None.

(** Adjusted eigenvalues [1 + 1j, 1 - 1j], a conjugate pair, and
    collaborators whose adjustment returns them. *)
Definition conjugate_pair : list Exact.C := [Exact.mk 1 1; Exact.mk 1 (-1)].

Definition conjugate_collaborators : Collaborators :=
  Exact.fixed (map Exact.real [1; 2]%Q) (Exact.real (1 # 10)) 0
              (Some conjugate_pair).

(** Eight probes whose depths are 2 seven times and then 5. *)
Definition observed_depths : list Z := [2; 2; 2; 2; 2; 2; 2; 5]%Z.

(** A volume of one voxel and two time points, and its mask. *)
Definition single_voxel_data : ndarray Exact.C :=
  mk_ndarray [1; 1; 1; 2] (map Exact.real [1; 2]%Q).
Definition single_voxel_mask : ndarray Z := mk_ndarray [1; 1; 1] [1]%Z.

(** Collaborators whose decomposition returns the spectrum [2, 1], largest
    eigenvalue first. *)
Definition descending_collaborators : Collaborators :=
  Exact.fixed (map Exact.real [2; 1]%Q) (Exact.real (1 # 10)) 0 None.

(** The spectrum [5, 3, 0], returned largest first, as line 69 leaves it;
    a spectrum returned smallest first, as line 69 leaves it; and a
    kurtosis statistic of 0.1 for three components. *)
Definition reversed_descending_spectrum : list Exact.C :=
  map Exact.real [0; 3; 5]%Q.
Definition reversed_ascending_spectrum : list Exact.C :=
  map Exact.real [5; 3; 0]%Q.
Definition flat_kurtosis : list Exact.C := repeat (Exact.real (1 # 10)) 3.

(** Collaborators whose adjustment returns the single eigenvalue [1 + 1j]. *)
Definition imaginary_collaborators : Collaborators :=
  Exact.fixed (map Exact.real [1; 2]%Q) (Exact.real (1 # 10)) 0
              (Some [Exact.mk 1 1]).


(** A mask of three elements and a mask that selects no voxel. *)
Definition oversized_mask : ndarray Z := mk_ndarray [3; 1; 1] [1; 1; 1]%Z.
Definition empty_mask : ndarray Z := mk_ndarray [2; 1; 1] [0; 0]%Z.

(** ** Vocabulary of the properties *)

(** The three recognized criteria, their names and their rows of [itc]. *)
Inductive criterion : Type := AIC | KIC | MDL.

Definition criterion_name (c : criterion) : string :=
  match c with AIC => "aic" | KIC => "kic" | MDL => "mdl" end.

Definition criterion_value {num : Numerics} (c : criterion) (r : F * F * F) : F :=
  match c with
  | AIC => fst (fst r)
  | KIC => snd (fst r)
  | MDL => snd r
  end.

(** The curve rises from candidate order [k] to [k + 1]: the difference of
    its entries at positions [k] and [k - 1] is positive. *)
Definition rises_at {num : Numerics} (curve : list F) (k : nat) : Prop :=
  flt (of_Q 0) (fsub (nth k curve (of_Q 0)) (nth (k - 1) curve (of_Q 0))) = true.

(** Each entry is at most the one before it. *)
Definition non_increasing {num : Numerics} (l : list F) : Prop :=
  forall i, S i < length l ->
    fle (nth (S i) l (of_Q 0)) (nth i l (of_Q 0)) = true.

(** Each entry is at most the one after it. *)
Definition non_decreasing {num : Numerics} (l : list F) : Prop :=
  forall i, S i < length l ->
    fle (nth i l (of_Q 0)) (nth (S i) l (of_Q 0)) = true.

(** * Properties *)

Unset Implicit Arguments.

(** ** Linear indices *)

Lemma prod_cons (n : nat) (sh : list nat) : prod (n :: sh) = n * prod sh.
Proof. reflexivity. Qed.

Lemma ravel_F_lt (sh idx : list nat) :
  in_range idx sh -> ravel_F sh idx < prod sh.
Proof.
  induction 1 as [|i n idx sh Hi _ IH]; simpl; [lia|].
  fold (prod sh). nia.
Qed.

Lemma ravel_C_lt (sh idx : list nat) :
  in_range idx sh -> ravel_C sh idx < prod sh.
Proof.
  induction 1 as [|i n idx sh Hi _ IH]; simpl; [lia|].
  fold (prod sh). nia.
Qed.

Lemma unravel_F_in_range (sh : list nat) :
  forall k, k < prod sh -> in_range (unravel_F sh k) sh.
Proof.
  induction sh as [|n sh IH]; intros k Hk; simpl.
  - constructor.
  - rewrite prod_cons in Hk.
    assert (Hn : n <> 0) by (intros ->; simpl in Hk; lia).
    constructor.
    + apply Nat.mod_upper_bound; exact Hn.
    + apply IH. apply Nat.Div0.div_lt_upper_bound. lia.
Qed.

Lemma unravel_C_in_range (sh : list nat) :
  forall k, k < prod sh -> in_range (unravel_C sh k) sh.
Proof.
  induction sh as [|n sh IH]; intros k Hk; simpl.
  - constructor.
  - rewrite prod_cons in Hk.
    assert (Hp : prod sh <> 0) by (intros E; rewrite E in Hk; lia).
    constructor.
    + apply Nat.Div0.div_lt_upper_bound. lia.
    + apply IH. apply Nat.mod_upper_bound; exact Hp.
Qed.


Lemma ravel_C_unravel_C (sh : list nat) :
  forall k, k < prod sh -> ravel_C sh (unravel_C sh k) = k.
Proof.
  induction sh as [|n sh IH]; intros k Hk; simpl.
  - simpl in Hk. lia.
  - rewrite prod_cons in Hk.
    assert (Hp : prod sh <> 0) by (intros E; rewrite E in Hk; lia).
    rewrite IH by (apply Nat.mod_upper_bound; exact Hp).
    pose proof (Nat.div_mod_eq k (prod sh)). lia.
Qed.

Lemma unravel_F_ravel_F (sh idx : list nat) :
  in_range idx sh -> unravel_F sh (ravel_F sh idx) = idx.
Proof.
  induction 1 as [|i n idx sh Hi _ IH]; simpl; [reflexivity|].
  f_equal.
  - rewrite Nat.mul_comm, Nat.Div0.mod_add. apply Nat.mod_small; exact Hi.
  - rewrite Nat.mul_comm, Nat.div_add by lia.
    rewrite Nat.div_small by exact Hi. exact IH.
Qed.

Lemma unravel_C_ravel_C (sh idx : list nat) :
  in_range idx sh -> unravel_C sh (ravel_C sh idx) = idx.
Proof.
  induction 1 as [|i n idx sh Hi Hr IH]; simpl; [reflexivity|].
  pose proof (ravel_C_lt _ _ Hr) as Hlt.
  f_equal.
  - rewrite Nat.add_comm, Nat.div_add by lia.
    rewrite Nat.div_small by exact Hlt. reflexivity.
  - rewrite Nat.add_comm, Nat.Div0.mod_add.
    rewrite Nat.mod_small by exact Hlt. exact IH.
Qed.

(** ** Gathering and reshaping *)

Lemma gather_cons {A : Type} (l : list A) (i : nat) (ix : list nat) (x : A) :
  nth_error l i = Some x -> gather l (i :: ix) = x :: gather l ix.
Proof. intros H. unfold gather. simpl. rewrite H. reflexivity. Qed.

Lemma gather_nth_error {A : Type} (l : list A) (ix : list nat) :
  Forall (fun i => i < length l) ix ->
  length (gather l ix) = length ix /\
  forall c, nth_error (gather l ix) c
            = match nth_error ix c with
              | Some i => nth_error l i
              | None => None
              end.
Proof.
  induction 1 as [|i ix Hi _ [IHlen IHnth]].
  - split; [reflexivity|]. intros [|c]; reflexivity.
  - destruct (nth_error l i) as [x|] eqn:Hx.
    2:{ apply nth_error_None in Hx. lia. }
    rewrite (gather_cons l i ix x Hx). split.
    + simpl. congruence.
    + intros [|c]; simpl; [symmetry; exact Hx | apply IHnth].
Qed.

Lemma nth_error_map_seq (g : nat -> nat) (n c : nat) :
  c < n -> nth_error (map g (seq 0 n)) c = Some (g c).
Proof.
  intros Hc. rewrite nth_error_map, nth_error_seq.
  destruct (Nat.ltb_spec c n); [reflexivity | lia].
Qed.

Lemma gather_map_seq {A : Type} (l : list A) (g : nat -> nat) (n : nat) :
  (forall c, c < n -> g c < length l) ->
  length (gather l (map g (seq 0 n))) = n /\
  forall c, c < n ->
    nth_error (gather l (map g (seq 0 n))) c = nth_error l (g c).
Proof.
  intros Hg.
  assert (Hall : Forall (fun i => i < length l) (map g (seq 0 n))).
  { apply Forall_forall. intros i Hi. apply in_map_iff in Hi.
    destruct Hi as [c [<- Hc]]. apply in_seq in Hc. apply Hg. lia. }
  destruct (gather_nth_error _ _ Hall) as [Hlen Hnth]. split.
  - rewrite Hlen, length_map, length_seq. reflexivity.
  - intros c Hc. rewrite Hnth, nth_error_map_seq by exact Hc. reflexivity.
Qed.

Lemma source_position_lt (old new : list nat) (c : nat) :
  prod old = prod new -> c < prod new -> source_position old new c < prod old.
Proof.
  intros Hp Hc. unfold source_position.
  apply ravel_C_lt, unravel_F_in_range. rewrite Hp.
  apply ravel_F_lt, unravel_C_in_range. exact Hc.
Qed.

(** A reshape between shapes of equal size succeeds, keeps the array well
    formed, and keeps every element at its column-major position. *)
Lemma reshape_F_spec {A : Type} (a : ndarray A) (new : list nat) :
  wf a -> prod (shape a) = prod new ->
  exists b, reshape_F a new = Ok b /\ shape b = new /\ wf b /\
    forall idx, in_range idx new ->
      get b idx = get a (unravel_F (shape a) (ravel_F new idx)).
Proof.
  intros Hwf Hp. unfold reshape_F. rewrite Hp, Nat.eqb_refl.
  eexists. split; [reflexivity|]. simpl.
  destruct (gather_map_seq (cdata a)
              (source_position (shape a) new) (prod new)) as [Hlen Hnth].
  { intros c Hc. rewrite Hwf. apply source_position_lt; assumption. }
  split; [reflexivity|]. split.
  - unfold wf. simpl. exact Hlen.
  - intros idx Hidx. unfold get. simpl.
    rewrite Hnth by (apply ravel_C_lt; exact Hidx).
    unfold source_position. rewrite unravel_C_ravel_C by exact Hidx.
    reflexivity.
Qed.

Lemma get_vector {A : Type} (n c : nat) (l : list A) :
  get (mk_ndarray [n] l) [c] = nth_error l c.
Proof. unfold get. simpl. f_equal. lia. Qed.

Lemma prod_vector (n : nat) : prod [n] = n.
Proof. simpl. lia. Qed.

(** Reshaping a vector to a shape of its size puts element [f] at the
    multi-index whose column-major position is [f]. *)
Lemma vector_to_volume {A : Type} (x : list A) (sp : list nat) :
  length x = prod sp ->
  exists vol, reshape_F (mk_ndarray [prod sp] x) sp = Ok vol /\
    shape vol = sp /\ wf vol /\
    forall idx, in_range idx sp -> get vol idx = nth_error x (ravel_F sp idx).
Proof.
  intros Hlen.
  destruct (reshape_F_spec (mk_ndarray [prod sp] x) sp)
    as [vol [Hvol [Hsh [Hwf Hget]]]].
  { unfold wf. simpl. lia. }
  { apply prod_vector. }
  exists vol. repeat split; try assumption.
  intros idx Hidx. rewrite (Hget idx Hidx). simpl.
  rewrite get_vector. f_equal.
  apply Nat.mod_small. apply ravel_F_lt. exact Hidx.
Qed.


(** ** Masked assignment *)

Lemma count_eq_cons (v m : Z) (l : list Z) :
  count_eq v (m :: l) = (if (m =? v)%Z then 1 else 0) + count_eq v l.
Proof. unfold count_eq. simpl. destruct (m =? v)%Z; reflexivity. Qed.

Lemma count_eq_firstn_le (v : Z) (l : list Z) (j : nat) :
  count_eq v (firstn j l) <= count_eq v l.
Proof.
  revert j. induction l as [|m l IH]; intros [|j]; simpl;
    try (unfold count_eq; simpl; lia).
  rewrite !count_eq_cons. specialize (IH j). lia.
Qed.

Lemma length_scatter {A : Type} (zero : A) (mask : list Z) :
  forall vals, length (scatter zero mask vals) = length mask.
Proof.
  induction mask as [|m mask IH]; intros vals; simpl; [reflexivity|].
  destruct (m =? 1)%Z; [destruct vals|]; simpl; rewrite IH; reflexivity.
Qed.


Lemma length_select {A : Type} (mask : list Z) :
  forall xs : list A,
    length mask = length xs -> length (select mask xs) = count_eq 1 mask.
Proof.
  induction mask as [|m mask IH]; intros [|x xs] Hlen;
    try discriminate Hlen; [reflexivity|].
  rewrite count_eq_cons. simpl. injection Hlen as Hlen.
  destruct (m =? 1)%Z; simpl; rewrite IH by exact Hlen; reflexivity.
Qed.

(** Selecting the masked elements of a vector and scattering them back
    keeps the elements at the selected positions and puts zero elsewhere. *)
Lemma scatter_select_nth_error {A : Type} (zero : A) (mask : list Z) :
  forall (xs : list A) (j : nat) (m : Z) (v : A),
    nth_error mask j = Some m -> nth_error xs j = Some v ->
    nth_error (scatter zero mask (select mask xs)) j
    = Some (if (m =? 1)%Z then v else zero).
Proof.
  induction mask as [|m0 mask IH]; intros xs j m v Hm Hv.
  - destruct j; discriminate Hm.
  - destruct xs as [|x0 xs]; [destruct j; discriminate Hv|].
    simpl select. destruct (m0 =? 1)%Z eqn:Hm0; simpl scatter; rewrite ?Hm0.
    + destruct j as [|j]; simpl in *.
      * injection Hm as <-. injection Hv as <-. rewrite Hm0. reflexivity.
      * apply IH; assumption.
    + destruct j as [|j]; simpl in *.
      * injection Hm as <-. rewrite Hm0. reflexivity.
      * apply IH; assumption.
Qed.

(** ** Column-major order throughout (C10) *)


(** ** Order selection (C1) *)

Lemma filter_seq_first (P : nat -> bool) (m : nat) :
  forall a,
    match filter P (seq a m) with
    | [] => forall i, a <= i < a + m -> P i = false
    | j :: _ => a <= j < a + m /\ P j = true /\
                forall i, a <= i < j -> P i = false
    end.
Proof.
  induction m as [|m IH]; intros a; simpl.
  - intros i Hi. lia.
  - destruct (P a) eqn:Pa.
    + repeat split; try lia. exact Pa.
    + specialize (IH (S a)). destruct (filter P (seq (S a) m)) as [|j rest].
      * intros i Hi. destruct (Nat.eq_dec i a) as [->|]; [exact Pa|].
        apply IH. lia.
      * destruct IH as [Hj [Pj Hbefore]]. repeat split; try lia; [exact Pj|].
        intros i Hi. destruct (Nat.eq_dec i a) as [->|]; [exact Pa|].
        apply Hbefore. lia.
Qed.

Section Diff.

Context {num : Numerics}.

Lemma length_np_diff (l : list F) : length (np_diff l) = length l - 1.
Proof.
  unfold np_diff. rewrite length_map, length_combine.
  destruct l as [|a l]; [reflexivity|]. cbn [tl length].
  rewrite Nat.min_r; lia.
Qed.

Lemma np_diff_cons (a b : F) (l : list F) :
  np_diff (a :: b :: l) = fsub b a :: np_diff (b :: l).
Proof. reflexivity. Qed.

Lemma nth_np_diff (l : list F) :
  forall i d, S i < length l ->
    nth i (np_diff l) d = fsub (nth (S i) l d) (nth i l d).
Proof.
  induction l as [|a l IH]; intros i d Hi; [simpl in Hi; lia|].
  destruct l as [|b l]; [simpl in Hi; lia|].
  rewrite np_diff_cons. destruct i as [|i]; [reflexivity|].
  simpl nth at 1. rewrite IH by (simpl in *; lia). reflexivity.
Qed.

(** [select_order] returns the first order at which the curve rises, and
    the length of the curve when it never rises. *)
Lemma select_order_spec (curve : list F) :
  let n := length curve in
  let comp_est := select_order curve in
  (1 <= comp_est < n /\ rises_at curve comp_est /\
   forall k, 1 <= k < comp_est -> ~ rises_at curve k)
  \/ (comp_est = n /\ forall k, 1 <= k < n -> ~ rises_at curve k).
Proof.
  cbv zeta. unfold select_order.
  set (P := fun i => flt (of_Q 0) (nth i (np_diff curve) (of_Q 0))).
  assert (HP : forall k, 1 <= k < length curve ->
                 (rises_at curve k <-> P (k - 1) = true)).
  { intros k Hk. unfold rises_at, P.
    rewrite nth_np_diff by lia.
    replace (S (k - 1)) with k by lia. reflexivity. }
  pose proof (filter_seq_first P (length (np_diff curve)) 0) as H.
  rewrite length_np_diff in *.
  destruct (filter P (seq 0 (length curve - 1))) as [|j rest]; simpl.
  - right. split; [reflexivity|]. intros k Hk Hr.
    apply HP in Hr; [|exact Hk]. rewrite H in Hr by lia. discriminate.
  - left. destruct H as [Hj [Pj Hbefore]]. split; [lia|]. split.
    + apply HP; [lia|]. replace (S j - 1) with j by lia. exact Pj.
    + intros k Hk Hr. apply HP in Hr; [|lia].
      rewrite Hbefore in Hr by lia. discriminate.
Qed.

End Diff.

(** C1. For every adjusted spectrum, every [N] and every number of time
    points [T = n + 1], the rows [aic], [kic] and [mdl] of [itc] hold one
    entry per candidate order [k = 1 .. T - 1], the entry that the loop body
    computes at [k]; and for each of the three criteria [comp_est] is the
    first order [k] at which the difference of the chosen curve (entry of
    order [k + 1] minus entry of order [k]) is strictly positive, or the
    length [T - 1] of the curve when no difference is positive. *)
Theorem comp_est_is_first_positive_difference :
  forall (num : Numerics) (EigenValues : list F) (N : Z) (n : nat)
         (c : criterion),
    let curve := map (fun k => criterion_value c
                                 (criteria_at EigenValues N (S n) k))
                     (seq 1 n) in
    exists itc comp_est,
      criteria_curves EigenValues N (S n) = Ok itc /\
      itc = map (fun c' => map (fun k => criterion_value c'
                                          (criteria_at EigenValues N (S n) k))
                               (seq 1 n))
                [AIC; KIC; MDL] /\
      map (@length F) itc = [n; n; n] /\
      estimate_order itc (criterion_name c) = Ok comp_est /\
      ((1 <= comp_est < n /\ rises_at curve comp_est /\
        forall k, 1 <= k < comp_est -> ~ rises_at curve k)
       \/ (comp_est = n /\ forall k, 1 <= k < n -> ~ rises_at curve k)).
Proof.
  intros num EigenValues N n c curve.
  unfold criteria_curves. simpl Nat.eqb. cbv iota.
  replace (S n - 1) with n by lia.
  eexists. exists (select_order curve).
  split; [reflexivity|]. split.
  { simpl. rewrite !map_map. reflexivity. }
  split.
  { simpl. rewrite !length_map, length_seq. reflexivity. }
  split.
  { unfold estimate_order. subst curve.
    destruct c; simpl; rewrite map_map; reflexivity. }
  pose proof (select_order_spec curve) as H. cbv zeta in H.
  assert (Hn : length curve = n)
    by (unfold curve; rewrite length_map, length_seq; reflexivity).
  rewrite Hn in H. exact H.
Qed.

(** ** The check on imaginary parts (C2) *)

Section Imaginary.

Context {num : Numerics}.

(** A sum of zeros is zero, as for IEEE floats. *)
Hypothesis np_sum_zeros :
  forall l, Forall (fun x => feq x (of_Q 0) = true) l ->
            feq (np_sum l) (of_Q 0) = true.

(** When every entry has a zero imaginary part the check passes. *)
Lemma real_spectrum_passes_check (EigenValues : list F) :
  Forall (fun e => feq (fimag e) (of_Q 0) = true) EigenValues ->
  check_imaginary EigenValues = Ok tt.
Proof.
  intros H. unfold check_imaginary, truthy.
  rewrite np_sum_zeros; [reflexivity|].
  apply Forall_map. exact H.
Qed.

End Imaginary.

(** C2, at the failing input. The adjusted eigenvalues [1 + 1j, 1 - 1j]
    both have a non-zero imaginary part, yet line 152 tests the sum of the
    imaginary parts, which is zero: the check passes and [ma_pca] returns a
    decomposition instead of raising. *)
Theorem conjugate_pair_is_not_rejected :
  Forall (fun e => truthy (num := Exact.numerics) (fimag e) = true)
         conjugate_pair /\
  check_imaginary (num := Exact.numerics) conjugate_pair = Ok tt /\
  is_ok (ma_pca conjugate_collaborators demo_data demo_mask "mdl") = true.
Proof.
  split; [repeat constructor|]. split; vm_compute; reflexivity.
Qed.

(** ** The consensus stop of the depth loop (C3) *)

(** C3, at the failing input. With the depths 2, 2, 2, 2, 2, 2, 2, 5 the
    loop stops at the eighth probe ([i = 7]), after computing its depth 5;
    the median and the count are taken over [sub_iid_sp[0:7]], and the array
    that line 119 reads holds the first seven depths only, without the depth
    computed last. *)
Theorem consensus_stop_excludes_latest_depth :
  depth_loop (fun j => Ok (nth j observed_depths 0%Z)) (seq 0 8) 0 []
  = Ok (firstn 7 observed_depths) /\
  firstn 7 observed_depths <> observed_depths.
Proof.
  split; [vm_compute; reflexivity | discriminate].
Qed.

(** ** Sorting *)

Lemma in_insert_sorted {A : Type} (leb : A -> A -> bool) (x y : A) (l : list A) :
  In y (insert_sorted leb x l) <-> y = x \/ In y l.
Proof.
  induction l as [|z l IH]; simpl.
  - intuition congruence.
  - destruct (leb x z); simpl; [intuition congruence|].
    rewrite IH. intuition congruence.
Qed.

Lemma in_sort_by {A : Type} (leb : A -> A -> bool) (y : A) (l : list A) :
  In y (sort_by leb l) <-> In y l.
Proof.
  induction l as [|x l IH]; simpl; [reflexivity|].
  rewrite in_insert_sorted, IH. intuition congruence.
Qed.

Lemma length_insert_sorted {A : Type} (leb : A -> A -> bool) (x : A) (l : list A) :
  length (insert_sorted leb x l) = S (length l).
Proof.
  induction l as [|z l IH]; simpl; [reflexivity|].
  destruct (leb x z); simpl; [reflexivity|]. rewrite IH. reflexivity.
Qed.

Lemma length_sort_by {A : Type} (leb : A -> A -> bool) (l : list A) :
  length (sort_by leb l) = length l.
Proof.
  induction l as [|x l IH]; simpl; [reflexivity|].
  rewrite length_insert_sorted, IH. reflexivity.
Qed.

(** ** Depth at least one (C4) *)

Lemma np_round_ge_1 (q : Q) : (1 <= q)%Q -> (1 <= np_round q)%Z.
Proof.
  intros Hq.
  assert (Hf : (1 <= Qfloor q)%Z).
  { change 1%Z with (Qfloor 1). apply Qfloor_resp_le. exact Hq. }
  unfold np_round.
  destruct (Qcompare (q - inject_Z (Qfloor q)) (1 # 2)); [|lia|lia].
  destruct (Z.even (Qfloor q)); lia.
Qed.

Lemma half_sum_ge_1 (a b : Z) :
  (1 <= a)%Z -> (1 <= b)%Z -> (1 <= (inject_Z a + inject_Z b) / 2)%Q.
Proof.
  intros Ha Hb. apply Qle_shift_div_l; [reflexivity|].
  rewrite <- inject_Z_plus.
  change (1 * 2)%Q with (inject_Z 2). rewrite <- Zle_Qle. lia.
Qed.

Lemma np_median_ge_1 (l : list Z) (q : Q) :
  Forall (fun d => (1 <= d)%Z) l -> np_median l = Some q -> (1 <= q)%Q.
Proof.
  intros Hall. unfold np_median. rewrite length_sort_by.
  assert (Hnth : forall i, i < length l -> (1 <= nth i (sort_by Z.leb l) 0)%Z).
  { intros i Hi. rewrite Forall_forall in Hall. apply Hall.
    apply (in_sort_by Z.leb). apply nth_In. rewrite length_sort_by. exact Hi. }
  destruct (Nat.eqb_spec (length l) 0) as [|Hn]; [discriminate|].
  assert (Hhalf : length l / 2 < length l)
    by (apply Nat.div_lt; lia).
  destruct (Nat.odd (length l)); intros [= <-].
  - change 1%Q with (inject_Z 1). rewrite <- Zle_Qle. apply Hnth. exact Hhalf.
  - apply half_sum_ge_1; apply Hnth; [|exact Hhalf].
    apply Nat.le_lt_trans with (length l / 2); [apply Nat.le_sub_l | exact Hhalf].
Qed.

Lemma clamp_depth_cases {num : Numerics} (maskvec : list Z) (Nt dim_n : nat)
  (median depth : Z) :
  clamp_depth maskvec Nt dim_n median = Ok depth ->
  depth = median \/
  (flt (floor_root (zsum maskvec) Nt dim_n) (of_Z median) = true /\
   to_int (floor_root (zsum maskvec) Nt dim_n) = Ok depth).
Proof.
  unfold clamp_depth. cbv zeta.
  destruct (flt (floor_root (zsum maskvec) Nt dim_n) (of_Z median)).
  - intros H. right. split; [reflexivity | exact H].
  - intros [= <-]. left. reflexivity.
Qed.

Lemma clamp_depth_ge_1 {num : Numerics} (maskvec : list Z) (Nt dim_n : nat)
  (median depth : Z) :
  (forall r, to_int (floor_root (zsum maskvec) Nt dim_n) = Ok r -> (1 <= r)%Z) ->
  (1 <= median)%Z ->
  clamp_depth maskvec Nt dim_n median = Ok depth -> (1 <= depth)%Z.
Proof.
  intros Hroot Hm H.
  destruct (clamp_depth_cases _ _ _ _ _ H) as [-> | [_ Hint]];
    [exact Hm | exact (Hroot _ Hint)].
Qed.

Lemma zsum_binary (l : list Z) :
  Forall (fun m => m = 0%Z \/ m = 1%Z) l -> zsum l = Z.of_nat (count_eq 1 l).
Proof.
  induction 1 as [|m l Hm _ IH]; [reflexivity|].
  rewrite count_eq_cons. simpl zsum. rewrite IH.
  destruct Hm as [-> | ->].
  - change (0 =? 1)%Z with false. cbv iota. lia.
  - change (1 =? 1)%Z with true. cbv iota. lia.
Qed.

Lemma Forall_firstn_keep {A : Type} (P : A -> Prop) (n : nat) (l : list A) :
  Forall P l -> Forall P (firstn n l).
Proof.
  intros H. rewrite <- (firstn_skipn n l) in H.
  apply Forall_app in H. apply H.
Qed.

Lemma depth_loop_ge_1 (depth_of : nat -> result Z) :
  (forall j d, depth_of j = Ok d -> (1 <= d)%Z) ->
  forall todo i acc l,
    Forall (fun d => (1 <= d)%Z) acc ->
    depth_loop depth_of todo i acc = Ok l ->
    Forall (fun d => (1 <= d)%Z) l.
Proof.
  intros Hof. induction todo as [|j todo IH]; intros i acc l Hacc; simpl.
  - intros [= <-]. exact Hacc.
  - destruct (depth_of j) as [d|e] eqn:Hd; simpl; [|discriminate].
    assert (Hacc' : Forall (fun d => (1 <= d)%Z) (acc ++ [d])).
    { apply Forall_app. split; [exact Hacc|].
      constructor; [exact (Hof j d Hd) | constructor]. }
    destruct (6 <? i); [|apply IH; exact Hacc'].
    destruct (np_median (firstn i (acc ++ [d]))) as [m|];
      [|apply IH; exact Hacc'].
    destruct (6 <? count_eq (np_round m) (firstn i (acc ++ [d])));
      [|apply IH; exact Hacc'].
    intros [= <-]. apply Forall_firstn_keep. exact Hacc'.
Qed.

(** Splits a hypothesis [x <- c ;; k = Ok r] into [c = Ok x] and
    [k x = Ok r]. *)
Ltac bind_ok H :=
  match type of H with
  | bind ?c _ = Ok _ =>
      let E := fresh "E" in
      destruct c eqn:E; simpl in H; [|discriminate H]
  end.

Section DepthBound.

Context {num : Numerics} (co : Collaborators).

Lemma probe_depth_ge_1 (sp : list nat) (maskvec : list Z) (dataN : ndarray F) :
  (forall x lag, est_indp_sp co x = Ok lag -> (0 <= lag)%Z) ->
  forall j d, probe_depth co sp maskvec dataN j = Ok d -> (1 <= d)%Z.
Proof.
  intros Hlag j d H. unfold probe_depth in H.
  bind_ok H. bind_ok H. bind_ok H. injection H as <-.
  match goal with E : est_indp_sp _ _ = Ok _ |- _ => apply Hlag in E end.
  lia.
Qed.

Lemma mask_and_flatten_ok (data_nib : ndarray F) (mask_nib : ndarray Z)
  sp Nt maskvec data :
  mask_and_flatten data_nib mask_nib = Ok (sp, Nt, maskvec, data) ->
  exists Nx Ny Nz data_nib_V mv,
    shape data_nib = [Nx; Ny; Nz; Nt] /\ sp = [Nx; Ny; Nz] /\
    reshape_F data_nib [Nx * Ny * Nz; Nt] = Ok data_nib_V /\
    reshape_F mask_nib [Nx * Ny * Nz] = Ok mv /\
    maskvec = cdata mv /\
    data = select_rows (cdata mv) data_nib_V.
Proof.
  unfold mask_and_flatten. intros H.
  destruct (shape data_nib) as [|Nx [|Ny [|Nz [|Nt0 [|]]]]]; try discriminate H.
  bind_ok H. bind_ok H. injection H as <- <- <- <-.
  exists Nx, Ny, Nz, a, a0. repeat split; assumption.
Qed.

(** What a successful [estimate_depth] went through. *)
Lemma estimate_depth_ok (data_nib : ndarray F) (mask_nib : ndarray Z)
  sp Nt maskvec data EigenValues depth N :
  estimate_depth co data_nib mask_nib
  = Ok (sp, Nt, maskvec, data, EigenValues, depth, N) ->
  exists V Lambda dataN kurtv1 idx sub_iid_sp median,
    mask_and_flatten data_nib mask_nib = Ok (sp, Nt, maskvec, data) /\
    icatb_svd co data Nt = Ok (V, Lambda) /\
    EigenValues = rev Lambda /\
    dot data (reverse_columns V) = Ok dataN /\
    kurtn co dataN = Ok kurtv1 /\
    select_probes kurtv1 EigenValues = Ok idx /\
    depth_loop (probe_depth co sp maskvec dataN) idx 0 [] = Ok sub_iid_sp /\
    median_depth sub_iid_sp = Ok median /\
    clamp_depth maskvec Nt (length sp) median = Ok depth /\
    N = effective_samples (zsum maskvec) depth (length sp).
Proof.
  intros H. unfold estimate_depth in H.
  bind_ok H. destruct a as [[[sp0 Nt0] maskvec0] data0].
  bind_ok H. bind_ok H. destruct a0 as [V Lambda].
  bind_ok H. bind_ok H. bind_ok H. bind_ok H. bind_ok H. bind_ok H.
  injection H as <- <- <- <- <- <- <-.
  exists V, Lambda. do 5 eexists.
  repeat split; eassumption || reflexivity.
Qed.

End DepthBound.

Lemma median_depth_ge_1 {num : Numerics} (co : Collaborators)
  (sp : list nat) (maskvec : list Z) (dataN : ndarray F) (idx : list nat)
  (sub : list Z) (median : Z) :
  (forall x lag, est_indp_sp co x = Ok lag -> (0 <= lag)%Z) ->
  depth_loop (probe_depth co sp maskvec dataN) idx 0 [] = Ok sub ->
  median_depth sub = Ok median -> (1 <= median)%Z.
Proof.
  intros Hlag Hloop Hmed. unfold median_depth in Hmed.
  destruct (np_median sub) as [q|] eqn:Hq; [|discriminate].
  injection Hmed as <-. apply np_round_ge_1.
  apply (np_median_ge_1 sub); [|exact Hq].
  apply (depth_loop_ge_1 _ (probe_depth_ge_1 co sp maskvec dataN Hlag)
           idx 0 [] sub); [constructor | exact Hloop].
Qed.

(** C4, as amended. Lines 120-121 take the root in floating point, so the
    statement names what it needs of [np.power]: for an integer sum [s] and
    [nt >= 1] time points with [s >= nt], the float
    [np.floor(np.power(s / nt, 1 / d))], once [int] has converted it, is at
    least one. Then, when the collaborator returns non-negative lags and the
    flattened mask is binary and selects at least as many voxels as there
    are time points, the depth that leaves lines 119-121 is at least one;
    and with a depth of one, lines 124-144 are skipped: the eigenvalues of
    line 69 go on to the adjustment unchanged. *)
Theorem depth_at_least_one_with_enough_voxels :
  forall (num : Numerics) (co : Collaborators)
         (data_nib : ndarray F) (mask_nib : ndarray Z)
         sp Nt maskvec data EigenValues depth N,
    (forall x lag, est_indp_sp co x = Ok lag -> (0 <= lag)%Z) ->
    (forall (s : Z) (nt d : nat) (r : Z),
       1 <= nt -> (Z.of_nat nt <= s)%Z -> 1 <= d ->
       to_int (floor_root s nt d) = Ok r -> (1 <= r)%Z) ->
    estimate_depth co data_nib mask_nib
    = Ok (sp, Nt, maskvec, data, EigenValues, depth, N) ->
    Forall (fun m => m = 0%Z \/ m = 1%Z) maskvec ->
    1 <= Nt <= count_eq 1 maskvec ->
    (1 <= depth)%Z /\
    (depth = 1%Z ->
     resampled_spectrum co sp Nt maskvec data depth EigenValues
     = Ok EigenValues).
Proof.
  intros num co data_nib mask_nib sp Nt maskvec data EigenValues depth N
         Hlag Hpower Hest Hbin Hcount.
  apply estimate_depth_ok in Hest.
  destruct Hest as [V [Lambda [dataN [kurtv1 [idx [sub [median H]]]]]]].
  destruct H as [Hmask [_ [_ [_ [_ [_ [Hloop [Hmed [Hdepth _]]]]]]]]].
  apply mask_and_flatten_ok in Hmask.
  destruct Hmask as [Nx [Ny [Nz [V' [mv [_ [Hsp _]]]]]]].
  subst sp. cbn [length] in Hdepth.
  split.
  - apply (clamp_depth_ge_1 maskvec Nt 3 median depth); [| |exact Hdepth].
    + intros r Hr. apply (Hpower (zsum maskvec) Nt 3 r); try lia; [|exact Hr].
      rewrite (zsum_binary _ Hbin). lia.
    + exact (median_depth_ge_1 co _ _ _ _ _ _ Hlag Hloop Hmed).
  - intros ->. reflexivity.
Qed.

(** The interpretation [Exact] has the property of [np.power] that C4
    needs: its root of a quotient of at least one is at least one. *)
Lemma exact_root_search_ge (fuel d : nat) (n : Z) :
  forall r, (r <= Exact.root_search fuel d n r)%Z.
Proof.
  induction fuel as [|fuel IH]; intros r; simpl; [lia|].
  destruct ((r + 1) ^ Z.of_nat d <=? n)%Z; [|lia].
  specialize (IH (r + 1)%Z). lia.
Qed.

Lemma exact_root_search_complete (d : nat) (n t : Z) :
  (t ^ Z.of_nat d <= n)%Z ->
  forall fuel r, (0 <= r <= t)%Z -> (t - r <= Z.of_nat fuel)%Z ->
    (t <= Exact.root_search fuel d n r)%Z.
Proof.
  intros Ht. induction fuel as [|fuel IH]; intros r Hr Hfuel.
  - simpl. lia.
  - cbn [Exact.root_search].
    destruct (Z.leb_spec ((r + 1) ^ Z.of_nat d) n) as [_ | Hgt].
    + destruct (Z.eq_dec r t) as [-> | Hne].
      * pose proof (exact_root_search_ge fuel d n (t + 1)). lia.
      * apply IH; lia.
    + destruct (Z.eq_dec r t) as [-> | Hne]; [lia|].
      assert (Hmono : ((r + 1) ^ Z.of_nat d <= t ^ Z.of_nat d)%Z)
        by (apply Z.pow_le_mono_l; lia).
      lia.
Qed.

Lemma exact_fst_real (q : Q) : fst (Exact.real q) = Qred q.
Proof. reflexivity. Qed.

Lemma exact_root_ge_1 (q : Q) (d : positive) : (1 <= q)%Q -> (1 <= Exact.root q d)%Q.
Proof.
  intros Hq. unfold Exact.root.
  set (n := Qfloor (q * inject_Z (16 ^ Z.pos d))).
  assert (Hpow : (16 <= 16 ^ Z.pos d)%Z).
  { change 16%Z with (16 ^ 1)%Z at 1. apply Z.pow_le_mono_r; lia. }
  assert (Hn : (16 ^ Z.pos d <= n)%Z).
  { unfold n. rewrite <- (Qfloor_Z (16 ^ Z.pos d)) at 1.
    apply Qfloor_resp_le.
    rewrite <- (Qmult_1_l (inject_Z (16 ^ Z.pos d))) at 1.
    apply Qmult_le_compat_r; [exact Hq|].
    change 0%Q with (inject_Z 0). rewrite <- Zle_Qle. lia. }
  assert (Hk : (16 <= Exact.root_search (Z.to_nat n) (Pos.to_nat d) n 0)%Z).
  { apply exact_root_search_complete; [|lia|lia].
    rewrite positive_nat_Z. exact Hn. }
  unfold Qle. simpl Qnum. simpl Qden. lia.
Qed.

Lemma exact_quotient_ge_1 (s : Z) (nt : nat) :
  1 <= nt -> (Z.of_nat nt <= s)%Z ->
  (1 <= fst (Exact.div (Exact.real (inject_Z s))
                       (Exact.real (inject_Z (Z.of_nat nt)))))%Q.
Proof.
  intros Hnt Hs. unfold Exact.div, Exact.real, Exact.mk. cbn [fst snd].
  rewrite !Qred_correct. change (Qred 0) with 0%Q.
  set (n := Z.of_nat nt) in *.
  assert (Hden : (inject_Z n * inject_Z n + 0 * 0 == inject_Z (n * n))%Q)
    by (rewrite inject_Z_mult; ring).
  assert (Hnum : (inject_Z s * inject_Z n + 0 * 0 == inject_Z (s * n))%Q)
    by (rewrite inject_Z_mult; ring).
  rewrite Hden, Hnum.
  apply Qle_shift_div_l.
  - change 0%Q with (inject_Z 0). rewrite <- Zlt_Qlt. nia.
  - rewrite Qmult_1_l, <- Zle_Qle. nia.
Qed.

Lemma exact_floor_root_ge_1 (s : Z) (nt d : nat) (r : Z) :
  1 <= nt -> (Z.of_nat nt <= s)%Z -> 1 <= d ->
  to_int (floor_root (num := Exact.numerics) s nt d) = Ok r -> (1 <= r)%Z.
Proof.
  intros Hnt Hs _ H.
  unfold floor_root, of_nat, of_Z in H.
  cbn [to_int np_floor fpow fdiv of_Q Exact.numerics] in H.
  set (y := Exact.div (Exact.real 1) (Exact.real (inject_Z (Z.of_nat d)))) in H.
  pose proof (exact_quotient_ge_1 s nt Hnt Hs) as Hb.
  set (b := Exact.div (Exact.real (inject_Z s))
                      (Exact.real (inject_Z (Z.of_nat nt)))) in *.
  assert (Hp : (1 <= fst (Exact.pow b y))%Q).
  { unfold Exact.pow. destruct (Qnum (fst y) =? 1)%Z; [|exact Hb].
    rewrite exact_fst_real, Qred_correct.
    apply exact_root_ge_1. exact Hb. }
  assert (Hr : Qfloor (fst (Exact.real (inject_Z (Qfloor (fst (Exact.pow b y))))))
               = r)
    by (unfold Exact.int, Exact.floor in H; congruence).
  rewrite <- Hr, exact_fst_real, Qred_correct, Qfloor_Z.
  change 1%Z with (Qfloor 1). apply Qfloor_resp_le. exact Hp.
Qed.

Lemma depth_at_least_one_witness :
  (forall x lag, est_indp_sp demo_collaborators x = Ok lag -> (0 <= lag)%Z) /\
  (forall (s : Z) (nt d : nat) (r : Z),
     1 <= nt -> (Z.of_nat nt <= s)%Z -> 1 <= d ->
     to_int (floor_root (num := Exact.numerics) s nt d) = Ok r -> (1 <= r)%Z) /\
  Forall (fun m => m = 0%Z \/ m = 1%Z) [1; 1]%Z /\
  1 <= 2 <= count_eq 1 [1; 1]%Z /\
  (1 <= 1)%Z /\
  (1%Z = 1%Z ->
   resampled_spectrum demo_collaborators [2; 1; 1] 2 [1; 1]%Z
     (mk_ndarray [2; 2] (map Exact.real [1; 2; 3; 4]%Q)) 1
     (map Exact.real [2; 1]%Q)
   = Ok (map Exact.real [2; 1]%Q)).
Proof.
  assert (Hlag : forall x lag,
            est_indp_sp demo_collaborators x = Ok lag -> (0 <= lag)%Z).
  { intros x lag H. injection H as <-. apply Z.le_refl. }
  assert (Hbin : Forall (fun m => m = 0%Z \/ m = 1%Z) [1; 1]%Z).
  { repeat constructor; right; reflexivity. }
  assert (Hcount : 1 <= 2 <= count_eq 1 [1; 1]%Z).
  { split; [apply Nat.le_succ_diag_r | apply Nat.le_refl]. }
  split; [exact Hlag|]. split; [exact exact_floor_root_ge_1|].
  split; [exact Hbin|]. split; [exact Hcount|].
  apply (depth_at_least_one_with_enough_voxels Exact.numerics
           demo_collaborators demo_data demo_mask
           [2; 1; 1] 2 [1; 1]%Z
           (mk_ndarray [2; 2] (map Exact.real [1; 2; 3; 4]%Q))
           (map Exact.real [2; 1]%Q) 1%Z (Finite 2)
           Hlag exact_floor_root_ge_1 eq_refl Hbin Hcount).
Defined.

(** C4 as stated fails: with one selected voxel, two time points and a lag
    of zero, the floor of the cube root of 1/2 is 0, below the median depth
    1, so the depth is 0 (and [N], a division by zero, is infinite). *)
Lemma depth_zero_with_fewer_voxels_than_time_points :
  count_eq 1 (cdata single_voxel_mask) = 1 /\
  est_indp_sp demo_collaborators single_voxel_data = Ok 0%Z /\
  estimate_depth demo_collaborators single_voxel_data single_voxel_mask
  = Ok ([1; 1; 1], 2, [1%Z],
        mk_ndarray [1; 2] (map Exact.real [1; 2]%Q),
        map Exact.real [2; 1]%Q, 0%Z, Infinite) /\
  ~ (1 <= 0)%Z.
Proof.
  split; [reflexivity|]. split; [reflexivity|].
  split; [vm_compute; reflexivity | lia].
Qed.

(** ** The reordering of the spectrum (C7) *)

Lemma rev_non_decreasing {num : Numerics} (l : list F) :
  non_decreasing l -> non_increasing (rev l).
Proof.
  intros H i Hi. rewrite length_rev in Hi.
  rewrite !rev_nth by lia.
  replace (length l - S i) with (S (length l - S (S i))) by lia.
  apply H. lia.
Qed.

Lemma resampled_spectrum_ok {num : Numerics} (co : Collaborators)
  sp Nt maskvec data depth EigenValues E' :
  resampled_spectrum co sp Nt maskvec data depth EigenValues = Ok E' ->
  (depth = 1%Z /\ E' = EigenValues) \/
  (depth <> 1%Z /\ exists dat dat' V Lambda,
     resample co sp Nt maskvec data depth = Ok dat /\
     scaler_fit_transform co dat = Ok dat' /\
     icatb_svd co dat' Nt = Ok (V, Lambda) /\ E' = rev Lambda).
Proof.
  unfold resampled_spectrum. intros H.
  destruct (Z.eqb_spec depth 1) as [->|Hne].
  - left. injection H as <-. split; reflexivity.
  - right. split; [exact Hne|].
    bind_ok H. bind_ok H. bind_ok H. destruct a1 as [V Lambda].
    injection H as <-. exists a, a0, V, Lambda.
    repeat split; assumption.
Qed.

(** C7, as amended. Lines 69 and 144 reverse the spectrum; they do not
    sort it. When the decomposition returns its spectrum in ascending
    order, the spectrum used downstream is non-increasing, both after the
    first decomposition and after the one on resampled data. *)
Theorem reversed_ascending_spectrum_is_non_increasing :
  forall (num : Numerics) (co : Collaborators)
         (data_nib : ndarray F) (mask_nib : ndarray Z)
         sp Nt maskvec data EigenValues depth N EigenValues',
    (forall x n V Lambda,
       icatb_svd co x n = Ok (V, Lambda) -> non_decreasing Lambda) ->
    estimate_depth co data_nib mask_nib
    = Ok (sp, Nt, maskvec, data, EigenValues, depth, N) ->
    resampled_spectrum co sp Nt maskvec data depth EigenValues
    = Ok EigenValues' ->
    non_increasing EigenValues /\ non_increasing EigenValues'.
Proof.
  intros num co data_nib mask_nib sp Nt maskvec data EigenValues depth N
         EigenValues' Hasc Hest Hres.
  apply estimate_depth_ok in Hest.
  destruct Hest as [V [Lambda [dataN [kurtv1 [idx [sub [median H]]]]]]].
  destruct H as [_ [Hsvd [-> _]]].
  assert (H1 : non_increasing (rev Lambda))
    by (apply rev_non_decreasing; exact (Hasc _ _ _ _ Hsvd)).
  split; [exact H1|].
  apply resampled_spectrum_ok in Hres.
  destruct Hres as [[_ ->] | [_ [dat [dat' [V' [Lambda' [_ [_ [Hsvd' ->]]]]]]]]].
  - exact H1.
  - apply rev_non_decreasing. exact (Hasc _ _ _ _ Hsvd').
Qed.

Lemma demo_spectrum_ascending :
  forall x n V Lambda,
    icatb_svd demo_collaborators x n = Ok (V, Lambda) ->
    non_decreasing Lambda.
Proof.
  intros x n V Lambda H. injection H as _ <-.
  intros [|i] Hi; [reflexivity | simpl in Hi; lia].
Defined.

Lemma reversed_ascending_spectrum_witness :
  (forall x n V Lambda,
     icatb_svd demo_collaborators x n = Ok (V, Lambda) ->
     non_decreasing Lambda) /\
  non_increasing (num := Exact.numerics) (map Exact.real [2; 1]%Q) /\
  non_increasing (num := Exact.numerics) (map Exact.real [2; 1]%Q).
Proof.
  split; [exact demo_spectrum_ascending|].
  apply (reversed_ascending_spectrum_is_non_increasing Exact.numerics
           demo_collaborators demo_data demo_mask
           [2; 1; 1] 2 [1; 1]%Z
           (mk_ndarray [2; 2] (map Exact.real [1; 2; 3; 4]%Q))
           (map Exact.real [2; 1]%Q) 1%Z (Finite 2)
           (map Exact.real [2; 1]%Q)
           demo_spectrum_ascending eq_refl eq_refl).
Defined.

(** C7 as stated fails: a decomposition that returns the non-negative
    spectrum [2, 1] in descending order leaves [1, 2] after line 69, which
    is not non-increasing. *)
Lemma reversed_descending_spectrum_is_increasing :
  icatb_svd descending_collaborators
    (mk_ndarray [2; 2] (map Exact.real [1; 2; 3; 4]%Q)) 2
  = Ok (Exact.eye 2 2, map Exact.real [2; 1]%Q) /\
  estimate_depth descending_collaborators demo_data demo_mask
  = Ok ([2; 1; 1], 2, [1; 1]%Z,
        mk_ndarray [2; 2] (map Exact.real [1; 2; 3; 4]%Q),
        map Exact.real [1; 2]%Q, 1%Z, Finite 2) /\
  ~ non_increasing (num := Exact.numerics) (map Exact.real [1; 2]%Q).
Proof.
  split; [reflexivity|]. split; [vm_compute; reflexivity|].
  intros H. specialize (H 0 (Nat.lt_succ_diag_r 1)). discriminate H.
Qed.

(** ** [np.unique] *)

Lemma insert_sorted_sorted (x : nat) (l : list nat) :
  StronglySorted le l -> StronglySorted le (insert_sorted Nat.leb x l).
Proof.
  induction 1 as [|y l Hs IH Hy]; simpl.
  - repeat constructor.
  - destruct (Nat.leb_spec x y) as [Hxy | Hyx].
    + constructor; [constructor; assumption|].
      constructor; [exact Hxy|].
      eapply Forall_impl; [|exact Hy]. intros z Hz. lia.
    + constructor; [exact IH|].
      apply Forall_forall. intros z Hz. apply in_insert_sorted in Hz.
      destruct Hz as [-> | Hz]; [lia|].
      rewrite Forall_forall in Hy. apply Hy. exact Hz.
Qed.

Lemma sort_by_sorted (l : list nat) : StronglySorted le (sort_by Nat.leb l).
Proof.
  induction l as [|x l IH]; simpl; [constructor|].
  apply insert_sorted_sorted. exact IH.
Qed.

Lemma in_dedup (j : nat) (l : list nat) : In j (dedup l) <-> In j l.
Proof.
  induction l as [|x l IH]; [reflexivity|].
  destruct l as [|y l]; [reflexivity|].
  change (dedup (x :: y :: l))
    with (if x =? y then dedup (y :: l) else x :: dedup (y :: l)).
  destruct (Nat.eqb_spec x y) as [->|Hne].
  - rewrite IH. simpl. intuition.
  - simpl In at 1. rewrite IH. simpl. intuition.
Qed.

Lemma dedup_sorted (l : list nat) :
  StronglySorted le l -> StronglySorted lt (dedup l).
Proof.
  induction 1 as [|x l Hs IH Hx]; [constructor|].
  destruct l as [|y l]; [repeat constructor|].
  change (dedup (x :: y :: l))
    with (if x =? y then dedup (y :: l) else x :: dedup (y :: l)).
  destruct (Nat.eqb_spec x y) as [->|Hne]; [exact IH|].
  constructor; [exact IH|].
  apply Forall_forall. intros z Hz. apply (proj1 (in_dedup _ _)) in Hz.
  apply StronglySorted_inv in Hs. destruct Hs as [_ Hy].
  apply Forall_inv in Hx.
  destruct Hz as [<- | Hz]; [lia|].
  rewrite Forall_forall in Hy. specialize (Hy z Hz). lia.
Qed.

Lemma in_np_unique (j : nat) (l : list nat) : In j (np_unique l) <-> In j l.
Proof. unfold np_unique. rewrite in_dedup, in_sort_by. reflexivity. Qed.

Lemma np_unique_sorted (l : list nat) : StronglySorted lt (np_unique l).
Proof. apply dedup_sorted, sort_by_sorted. Qed.

Lemma sort_by_seq (m : nat) : forall a, sort_by Nat.leb (seq a m) = seq a m.
Proof.
  induction m as [|m IH]; intros a; [reflexivity|].
  simpl. rewrite IH. destruct m as [|m]; [reflexivity|].
  simpl. destruct (Nat.leb_spec a (S a)); [reflexivity | lia].
Qed.

Lemma dedup_seq (m : nat) : forall a, dedup (seq a m) = seq a m.
Proof.
  induction m as [|m IH]; intros a; [reflexivity|].
  destruct m as [|m]; [reflexivity|].
  change (dedup (seq a (S (S m))))
    with (if a =? S a then dedup (seq (S a) (S m))
          else a :: dedup (seq (S a) (S m))).
  destruct (Nat.eqb_spec a (S a)); [lia|].
  rewrite IH. reflexivity.
Qed.

Lemma np_unique_seq (a m : nat) : np_unique (seq a m) = seq a m.
Proof. unfold np_unique. rewrite sort_by_seq. apply dedup_seq. Qed.

(** ** Positions that pass a test *)

Lemma filter_sorted (P : nat -> bool) (l : list nat) :
  StronglySorted lt l -> StronglySorted lt (filter P l).
Proof.
  induction 1 as [|x l Hs IH Hx]; simpl; [constructor|].
  destruct (P x); [|exact IH].
  constructor; [exact IH|].
  apply Forall_forall. intros z Hz. apply filter_In in Hz.
  rewrite Forall_forall in Hx. apply Hx. apply Hz.
Qed.

Lemma seq_sorted (m : nat) : forall a, StronglySorted lt (seq a m).
Proof.
  induction m as [|m IH]; intros a; simpl; constructor; [apply IH|].
  apply Forall_forall. intros z Hz. apply in_seq in Hz. lia.
Qed.

Lemma map_nth_seq {A : Type} (d : A) (l : list A) :
  map (fun i => nth i l d) (seq 0 (length l)) = l.
Proof.
  induction l as [|x l IH]; [reflexivity|].
  simpl. f_equal. rewrite <- seq_shift, map_map. exact IH.
Qed.

(** A test that holds below every position where it holds selects an
    initial segment of the positions. *)
Lemma filter_seq_prefix (P : nat -> bool) (n : nat) :
  (forall i j, i < j < n -> P j = true -> P i = true) ->
  filter P (seq 0 n) = seq 0 (length (filter P (seq 0 n))).
Proof.
  induction n as [|n IH]; intros Hdown; [reflexivity|].
  rewrite seq_S, filter_app. simpl.
  destruct (P n) eqn:Pn.
  - assert (Hall : filter P (seq 0 n) = seq 0 n).
    { apply forallb_filter_id. apply forallb_forall.
      intros i Hi. apply in_seq in Hi. apply (Hdown i n); [lia | exact Pn]. }
    rewrite Hall, length_app, length_seq. simpl.
    rewrite Nat.add_1_r, seq_S. reflexivity.
  - rewrite app_nil_r. apply IH.
    intros i j Hij. apply Hdown. lia.
Qed.

(** ** The probes (C8) *)

Section Probes.

Context {num : Numerics}.

Lemma nth_mark_large (kurt EigenValues : list F) (i : nat) :
  length kurt = length EigenValues -> i < length EigenValues ->
  nth i (mark_large kurt EigenValues) (of_Q 0)
  = if flt (np_mean EigenValues) (nth i EigenValues (of_Q 0))
    then of_Q 1000 else nth i kurt (of_Q 0).
Proof.
  intros Hlen Hi. unfold mark_large.
  set (f := fun ke : F * F =>
              if flt (np_mean EigenValues) (snd ke) then of_Q 1000 else fst ke).
  rewrite (nth_indep _ (of_Q 0) (f (of_Q 0, of_Q 0)))
    by (rewrite length_map, length_combine; lia).
  rewrite map_nth, combine_nth by exact Hlen. reflexivity.
Qed.

Lemma in_idx_gauss (kurtv1 EigenValues : list F) (i : nat) :
  In i (idx_gauss kurtv1 EigenValues) <->
  i < length EigenValues /\
  flt (nth i kurtv1 (of_Q 0)) (of_Q (3 # 10)) = true /\
  flt (of_Q 0) (nth i kurtv1 (of_Q 0)) = true /\
  flt eps (nth i EigenValues (of_Q 0)) = true.
Proof.
  unfold idx_gauss, gaussian_like.
  rewrite filter_In, in_seq, !andb_true_iff. intuition lia.
Qed.

Lemma degrees_of_freedom_positions (EigenValues : list F) :
  degrees_of_freedom EigenValues
  = length (filter (fun i => flt eps (nth i EigenValues (of_Q 0)))
                   (seq 0 (length EigenValues))).
Proof.
  unfold degrees_of_freedom.
  rewrite <- (map_nth_seq (of_Q 0) EigenValues) at 1.
  rewrite filter_map_swap, length_map. reflexivity.
Qed.

(** When the eigenvalues above epsilon come first, the range of line 97
    is the tail of their positions. *)
Lemma tail_of_positions_above_eps (EigenValues : list F) (m : nat) :
  (forall i j, i < j < length EigenValues ->
     flt eps (nth j EigenValues (of_Q 0)) = true ->
     flt eps (nth i EigenValues (of_Q 0)) = true) ->
  m <= degrees_of_freedom EigenValues ->
  seq (degrees_of_freedom EigenValues - m) m
  = last_n m (filter (fun i => flt eps (nth i EigenValues (of_Q 0)))
                     (seq 0 (length EigenValues))).
Proof.
  intros Hfirst Hm.
  rewrite (filter_seq_prefix _ _ Hfirst).
  rewrite <- degrees_of_freedom_positions.
  unfold last_n. rewrite length_seq, skipn_seq. f_equal. lia.
Qed.

End Probes.

(** C8, as amended. [idx_gauss] holds exactly the positions whose statistic
    (1000 where the eigenvalue is above the mean eigenvalue) is strictly
    between 0 and 0.3 and whose eigenvalue is above machine epsilon, in
    ascending order. With at least 12 of them the probes are the first
    four, the four at positions [middle - 1 .. middle + 2] for
    [middle = round(count / 2)] and the last four; otherwise they are the
    range [dfs - min(12, dfs) .. dfs - 1], which is the tail of the
    positions with eigenvalue above epsilon when those come first (as in a
    non-increasing spectrum). The probes are strictly ascending, hence
    without duplicates. *)
Theorem probes_of_gaussian_components :
  forall (num : Numerics) (kurt EigenValues : list F),
    length kurt = length EigenValues ->
    let kurtv1 := mark_large kurt EigenValues in
    let eligible := idx_gauss kurtv1 EigenValues in
    let dfs := degrees_of_freedom EigenValues in
    let middle := Z.to_nat (np_round (Z.of_nat (length eligible) # 2)) in
    let above_eps i := flt eps (nth i EigenValues (of_Q 0)) in
    exists probes,
      select_probes kurt EigenValues = Ok probes /\
      (forall i, i < length EigenValues ->
         nth i kurtv1 (of_Q 0)
         = if flt (np_mean EigenValues) (nth i EigenValues (of_Q 0))
           then of_Q 1000 else nth i kurt (of_Q 0)) /\
      (forall i, In i eligible <->
         i < length EigenValues /\
         flt (nth i kurtv1 (of_Q 0)) (of_Q (3 # 10)) = true /\
         flt (of_Q 0) (nth i kurtv1 (of_Q 0)) = true /\
         above_eps i = true) /\
      StronglySorted lt eligible /\
      (12 <= length eligible ->
       forall j, In j probes <->
         In j (firstn 4 eligible) \/
         In j (slice (middle - 1) (middle + 3) eligible) \/
         In j (last_n 4 eligible)) /\
      (length eligible < 12 ->
       probes = seq (dfs - Nat.min 12 dfs) (Nat.min 12 dfs) /\
       ((forall i j, i < j < length EigenValues ->
           above_eps j = true -> above_eps i = true) ->
        probes = last_n (Nat.min 12 dfs)
                   (filter above_eps (seq 0 (length EigenValues))))) /\
      StronglySorted lt probes.
Proof.
  intros num kurt EigenValues Hlen kurtv1 eligible dfs middle above_eps.
  exists (pick_probes eligible dfs).
  split.
  { unfold select_probes. rewrite Hlen, Nat.eqb_refl. reflexivity. }
  split.
  { intros i Hi. apply nth_mark_large; assumption. }
  split.
  { intros i. apply in_idx_gauss. }
  split.
  { apply filter_sorted, seq_sorted. }
  split; [|split].
  - intros H12 j. unfold pick_probes.
    destruct (Nat.leb_spec 12 (length eligible)) as [_|]; [|lia].
    rewrite in_np_unique, !in_app_iff. reflexivity.
  - intros H12. unfold pick_probes.
    destruct (Nat.leb_spec 12 (length eligible)) as [|_]; [lia|].
    rewrite np_unique_seq. split; [reflexivity|].
    intros Hfirst. apply tail_of_positions_above_eps; [exact Hfirst|].
    apply Nat.le_min_r.
  - apply np_unique_sorted.
Qed.

Section ProbesExamples.

#[local] Existing Instance Exact.numerics.

Lemma probes_of_gaussian_components_witness :
  length flat_kurtosis = length reversed_ascending_spectrum /\
  exists probes,
    select_probes flat_kurtosis reversed_ascending_spectrum = Ok probes /\
    probes = last_n 2 (filter
                         (fun i => flt eps (nth i reversed_ascending_spectrum
                                                (of_Q 0)))
                         (seq 0 3)) /\
    StronglySorted lt probes.
Proof.
  split; [reflexivity|].
  destruct (probes_of_gaussian_components Exact.numerics
              flat_kurtosis reversed_ascending_spectrum eq_refl)
    as [probes [Hsel [_ [_ [_ [_ [Hfew Hsorted]]]]]]].
  exists probes. split; [exact Hsel|]. split; [|exact Hsorted].
  assert (Hlt : length (idx_gauss
                          (mark_large flat_kurtosis reversed_ascending_spectrum)
                          reversed_ascending_spectrum) < 12)
    by (vm_compute; lia).
  destruct (Hfew Hlt) as [_ Hlast]. apply Hlast.
  intros [|[|[|i]]] [|[|[|j]]] Hij Hj;
    try reflexivity; try discriminate Hj; simpl in Hij; lia.
Defined.

(** C8 as stated fails in its fallback: for the spectrum [5, 3, 0] returned
    largest first, line 69 leaves [0, 3, 5]; two eigenvalues are above
    epsilon, at positions 1 and 2, but the probes are the range [0, 1],
    which includes position 0, whose eigenvalue is not above epsilon. *)
Lemma fallback_probes_not_above_eps :
  select_probes flat_kurtosis reversed_descending_spectrum = Ok [0; 1] /\
  length (idx_gauss (mark_large flat_kurtosis reversed_descending_spectrum)
                    reversed_descending_spectrum) < 12 /\
  last_n (Nat.min 12 (degrees_of_freedom reversed_descending_spectrum))
    (filter (fun i => flt eps (nth i reversed_descending_spectrum (of_Q 0)))
            (seq 0 3))
  = [1; 2] /\
  [0; 1] <> [1; 2].
Proof.
  split; [vm_compute; reflexivity|].
  split; [vm_compute; lia|].
  split; [vm_compute; reflexivity | discriminate].
Qed.

End ProbesExamples.

(** ** What a successful run went through *)

Section Runs.

Context {num : Numerics} (co : Collaborators).

Lemma adjusted_spectrum_ok (data_nib : ndarray F) (mask_nib : ndarray Z)
  data Nt N EigenValues :
  adjusted_spectrum co data_nib mask_nib = Ok (data, Nt, N, EigenValues) ->
  exists sp maskvec E0 depth xN E1,
    estimate_depth co data_nib mask_nib
    = Ok (sp, Nt, maskvec, data, E0, depth, xN) /\
    resampled_spectrum co sp Nt maskvec data depth E0 = Ok E1 /\
    format_int xN = Ok N /\
    eigensp_adj co E1 N (length E1) = Ok EigenValues.
Proof.
  intros H. unfold adjusted_spectrum in H.
  bind_ok H. destruct a as [[[[[[sp Nt0] maskvec] data0] E0] depth] xN].
  bind_ok H. bind_ok H. bind_ok H. injection H as <- <- <- <-.
  exists sp, maskvec, E0, depth, xN, a.
  repeat split; assumption.
Qed.

Lemma ma_pca_ok (data_nib : ndarray F) (mask_nib : ndarray Z)
  (criteria : string) out :
  ma_pca co data_nib mask_nib criteria = Ok out ->
  exists data Nt N EigenValues comp_est,
    adjusted_spectrum co data_nib mask_nib = Ok (data, Nt, N, EigenValues) /\
    order_of_spectrum EigenValues N Nt criteria = Ok comp_est /\
    final_pca co data comp_est = Ok out.
Proof.
  intros H. unfold ma_pca in H.
  bind_ok H. destruct a as [[[data Nt] N] EigenValues].
  bind_ok H. exists data, Nt, N, EigenValues, a.
  repeat split; assumption.
Qed.

End Runs.

(** ** An unrecognized criterion (C6) *)

Lemma criteria_idx_unbound (criteria : string) :
  criteria <> "aic" -> criteria <> "kic" -> criteria <> "mdl" ->
  criteria_idx criteria = None.
Proof.
  intros Ha Hk Hm. unfold criteria_idx.
  apply String.eqb_neq in Ha, Hk, Hm. rewrite Ha, Hk, Hm. reflexivity.
Qed.

(** C6, as amended. The source has no check of [criteria] and no error of
    its own for it. For a string other than "aic", "kic" and "mdl" the
    variable [criteria_idx] stays unbound and reading it on line 186
    raises [UnboundLocalError], so [ma_pca] never returns a decomposition
    and never falls back on one of the three curves; the error it raises
    is that one, unless an earlier line raises first, and then it is an
    error that [ma_pca] raises for every criterion. *)
Theorem unrecognized_criterion_raises :
  forall (num : Numerics) (co : Collaborators)
         (data_nib : ndarray F) (mask_nib : ndarray Z) (criteria : string),
    criteria <> "aic" -> criteria <> "kic" -> criteria <> "mdl" ->
    (forall itc,
       estimate_order itc criteria = Err (UnboundLocalError "criteria_idx")) /\
    exists e,
      ma_pca co data_nib mask_nib criteria = Err e /\
      (e = UnboundLocalError "criteria_idx" \/
       forall criteria', ma_pca co data_nib mask_nib criteria' = Err e).
Proof.
  intros num co data_nib mask_nib criteria Ha Hk Hm.
  pose proof (criteria_idx_unbound criteria Ha Hk Hm) as Hidx.
  split.
  { intros itc. unfold estimate_order. rewrite Hidx. reflexivity. }
  unfold ma_pca.
  destruct (adjusted_spectrum co data_nib mask_nib)
    as [[[[data Nt] N] EigenValues]|e]; simpl.
  2:{ exists e. split; [reflexivity|]. right. intros; reflexivity. }
  unfold order_of_spectrum.
  destruct (check_imaginary EigenValues) as [[]|e]; simpl.
  2:{ exists e. split; [reflexivity|]. right. intros; reflexivity. }
  destruct (clamp_small EigenValues) as [clamped|e]; simpl.
  2:{ exists e. split; [reflexivity|]. right. intros; reflexivity. }
  destruct (criteria_curves clamped N Nt) as [itc|e]; simpl.
  2:{ exists e. split; [reflexivity|]. right. intros; reflexivity. }
  unfold estimate_order. rewrite Hidx. simpl.
  eexists. split; [reflexivity|]. left. reflexivity.
Qed.

Lemma unrecognized_criterion_witness :
  "foo" <> "aic" /\ "foo" <> "kic" /\ "foo" <> "mdl" /\
  (forall itc : list (list Exact.C),
     estimate_order (num := Exact.numerics) itc "foo"
     = Err (UnboundLocalError "criteria_idx")) /\
  exists e,
    ma_pca demo_collaborators demo_data demo_mask "foo" = Err e /\
    (e = UnboundLocalError "criteria_idx" \/
     forall criteria',
       ma_pca demo_collaborators demo_data demo_mask criteria' = Err e).
Proof.
  assert (Ha : "foo" <> "aic") by discriminate.
  assert (Hk : "foo" <> "kic") by discriminate.
  assert (Hm : "foo" <> "mdl") by discriminate.
  split; [exact Ha|]. split; [exact Hk|]. split; [exact Hm|].
  exact (unrecognized_criterion_raises Exact.numerics demo_collaborators
           demo_data demo_mask "foo" Ha Hk Hm).
Defined.

(** C6 as stated fails: there is no configuration error. With the
    criterion "foo" the run goes through every stage up to line 186 and
    raises [UnboundLocalError] there; and when the adjusted eigenvalues
    have an imaginary part that does not cancel, the same criterion ends in
    the [ValueError] of line 153, the error of an invalid eigenvalue. *)
Lemma unrecognized_criterion_other_errors :
  ma_pca demo_collaborators demo_data demo_mask "foo"
  = Err (UnboundLocalError "criteria_idx") /\
  ma_pca imaginary_collaborators demo_data demo_mask "foo"
  = Err (ValueError "Invalid eigen value found for the subsampled data.") /\
  ma_pca imaginary_collaborators demo_data demo_mask "mdl"
  = Err (ValueError "Invalid eigen value found for the subsampled data.").
Proof.
  repeat split; vm_compute; reflexivity.
Qed.

(** ** Masks that do not fit (C5) *)

Lemma gather_In {A : Type} (l : list A) (ix : list nat) (x : A) :
  In x (gather l ix) -> In x l.
Proof.
  unfold gather. rewrite in_flat_map. intros [i [_ Hx]].
  destruct (nth_error l i) as [y|] eqn:Hy; [|contradiction].
  destruct Hx as [<-|[]]. eapply nth_error_In. exact Hy.
Qed.

Lemma reshape_F_Forall {A : Type} (P : A -> Prop) (a b : ndarray A)
  (sh : list nat) :
  Forall P (cdata a) -> reshape_F a sh = Ok b -> Forall P (cdata b).
Proof.
  intros Ha. unfold reshape_F.
  destruct (prod (shape a) =? prod sh); [|discriminate].
  intros [= <-]. simpl. apply Forall_forall. intros x Hx.
  apply gather_In in Hx. rewrite Forall_forall in Ha. apply Ha. exact Hx.
Qed.

Lemma reshape_F_mismatch {A : Type} (a : ndarray A) (sh : list nat) :
  prod (shape a) <> prod sh ->
  reshape_F a sh = Err (ValueError "cannot reshape array").
Proof.
  intros H. unfold reshape_F.
  destruct (Nat.eqb_spec (prod (shape a)) (prod sh)); [contradiction|].
  reflexivity.
Qed.

Lemma reshape_F_match {A : Type} (a : ndarray A) (sh : list nat) :
  prod (shape a) = prod sh -> exists b, reshape_F a sh = Ok b.
Proof.
  intros H. unfold reshape_F. rewrite H, Nat.eqb_refl.
  eexists. reflexivity.
Qed.

Lemma zsum_zeros (l : list Z) : Forall (fun m => m = 0%Z) l -> zsum l = 0%Z.
Proof.
  induction 1 as [|m l Hm _ IH]; [reflexivity|].
  simpl. rewrite IH, Hm. reflexivity.
Qed.

Lemma clamp_depth_empty_mask {num : Numerics} (maskvec : list Z) (Nt : nat)
  (median : Z) :
  zsum maskvec = 0%Z -> Nt <> 0 -> (1 <= median)%Z ->
  clamp_depth maskvec Nt 3 median = Ok 0%Z.
Proof.
  intros Hs Hnt Hm. unfold clamp_depth, floor_root, of_nat, of_Z. rewrite Hs.
  change (inject_Z 0) with 0%Q.
  assert (H3 : 3 <> 0) by discriminate.
  destruct (@root_of_zero num Nt 3 median Hnt H3 Hm) as [Hlt Hint].
  cbv zeta. rewrite Hlt. exact Hint.
Qed.

(** C5, as amended. The source has no check of the mask. For a volume of
    shape [(Nx, Ny, Nz, Nt)]: (1) a mask whose number of elements is not
    [Nx * Ny * Nz] makes the reshape of line 57 raise [ValueError]; (2) a
    mask that is zero everywhere, with non-negative lags from the
    collaborator, makes [ma_pca] raise before it returns a decomposition
    (the depth is clamped to 0, the float root of [0 / Nt], and [N] is
    [0 / 0], or there are no time points). *)
Theorem mask_of_wrong_size_or_empty_raises :
  forall (num : Numerics) (co : Collaborators)
         (data_nib : ndarray F) (mask_nib : ndarray Z) (criteria : string)
         (Nx Ny Nz Nt : nat),
    shape data_nib = [Nx; Ny; Nz; Nt] ->
    (prod (shape mask_nib) <> Nx * Ny * Nz ->
     ma_pca co data_nib mask_nib criteria
     = Err (ValueError "cannot reshape array")) /\
    (Forall (fun m => m = 0%Z) (cdata mask_nib) ->
     (forall x lag, est_indp_sp co x = Ok lag -> (0 <= lag)%Z) ->
     exists e, ma_pca co data_nib mask_nib criteria = Err e).
Proof.
  intros num co data_nib mask_nib criteria Nx Ny Nz Nt Hshape. split.
  - intros Hsize.
    unfold ma_pca, adjusted_spectrum, estimate_depth, mask_and_flatten.
    rewrite Hshape.
    destruct (reshape_F_match data_nib [Nx * Ny * Nz; Nt]) as [V HV].
    { rewrite Hshape. unfold prod. cbn [fold_right]. ring. }
    rewrite HV. cbn [bind].
    rewrite reshape_F_mismatch by (rewrite prod_vector; exact Hsize).
    reflexivity.
  - intros Hzero Hlag.
    destruct (ma_pca co data_nib mask_nib criteria) as [out|e] eqn:Hrun;
      [exfalso | exists e; reflexivity].
    apply ma_pca_ok in Hrun.
    destruct Hrun as [data [Nt' [N [E [comp_est [Hadj [Hord _]]]]]]].
    apply adjusted_spectrum_ok in Hadj.
    destruct Hadj as [sp [maskvec [E0 [depth [xN [E1 [Hest [_ [Hfmt _]]]]]]]]].
    apply estimate_depth_ok in Hest.
    destruct Hest as [V [Lambda [dataN [kurtv1 [idx [sub [median H]]]]]]].
    destruct H as [Hmask [_ [_ [_ [_ [_ [Hloop [Hmed [Hdepth HN]]]]]]]]].
    apply mask_and_flatten_ok in Hmask.
    destruct Hmask as [Nx' [Ny' [Nz' [V' [mv [_ [-> [_ [Hmv [-> _]]]]]]]]]].
    assert (Hsum : zsum (cdata mv) = 0%Z).
    { apply zsum_zeros. exact (reshape_F_Forall _ _ _ _ Hzero Hmv). }
    assert (Hmedian : (1 <= median)%Z).
    { unfold median_depth in Hmed.
      destruct (np_median sub) as [q|] eqn:Hq; [|discriminate].
      injection Hmed as <-. apply np_round_ge_1.
      apply (np_median_ge_1 sub); [|exact Hq].
      apply (depth_loop_ge_1 _
               (probe_depth_ge_1 co [Nx'; Ny'; Nz'] (cdata mv) dataN Hlag)
               idx 0 [] sub); [constructor | exact Hloop]. }
    destruct (Nat.eq_dec Nt' 0) as [-> | Hnt].
    + unfold order_of_spectrum in Hord.
      bind_ok Hord. bind_ok Hord. discriminate Hord.
    + cbn [length] in Hdepth, HN.
      rewrite (clamp_depth_empty_mask _ _ _ Hsum Hnt Hmedian) in Hdepth.
      injection Hdepth as <-. rewrite Hsum in HN. subst xN.
      discriminate Hfmt.
Qed.

Section MaskExamples.

#[local] Existing Instance Exact.numerics.

Lemma mask_of_wrong_size_or_empty_witness :
  shape demo_data = [2; 1; 1; 2] /\
  prod (shape oversized_mask) <> 2 * 1 * 1 /\
  Forall (fun m => m = 0%Z) (cdata empty_mask) /\
  (forall x lag, est_indp_sp demo_collaborators x = Ok lag -> (0 <= lag)%Z) /\
  ma_pca demo_collaborators demo_data oversized_mask "mdl"
  = Err (ValueError "cannot reshape array") /\
  exists e, ma_pca demo_collaborators demo_data empty_mask "mdl" = Err e.
Proof.
  assert (Hsize : prod (shape oversized_mask) <> 2 * 1 * 1) by discriminate.
  assert (Hzero : Forall (fun m => m = 0%Z) (cdata empty_mask))
    by (repeat constructor).
  assert (Hlag : forall x lag,
            est_indp_sp demo_collaborators x = Ok lag -> (0 <= lag)%Z).
  { intros x lag H. injection H as <-. apply Z.le_refl. }
  split; [reflexivity|]. split; [exact Hsize|]. split; [exact Hzero|].
  split; [exact Hlag|]. split.
  - exact (proj1 (mask_of_wrong_size_or_empty_raises Exact.numerics
                    demo_collaborators demo_data oversized_mask "mdl"
                    2 1 1 2 eq_refl) Hsize).
  - exact (proj2 (mask_of_wrong_size_or_empty_raises Exact.numerics
                    demo_collaborators demo_data empty_mask "mdl"
                    2 1 1 2 eq_refl) Hzero Hlag).
Defined.

(** C5 as stated fails: the mask of shape [(1, 2, 1)] does not have the
    spatial shape [(2, 1, 1)] of the volume, yet it has as many elements,
    line 57 flattens it, and [ma_pca] returns a decomposition. *)
Lemma mask_of_other_shape_is_accepted :
  shape demo_mask_transposed <> firstn 3 (shape demo_data) /\
  ma_pca demo_collaborators demo_data demo_mask_transposed "mdl"
  = Ok (mk_ndarray [2; 1] (map Exact.real [1; 3]%Q),
        [Exact.real 1], [Exact.real 1],
        mk_ndarray [2; 1] (map Exact.real [1; 0]%Q)).
Proof.
  split; [discriminate | vm_compute; reflexivity].
Qed.

End MaskExamples.

(** * Further properties of the stages *)

(** ** Bounds of the selected order *)

Lemma select_order_bounds {num : Numerics} (curve : list F) :
  select_order curve <= length curve /\
  (1 <= length curve -> 1 <= select_order curve).
Proof.
  pose proof (select_order_spec curve) as H. cbv zeta in H.
  destruct H as [[H _] | [H _]]; lia.
Qed.

Lemma criteria_idx_some (criteria : string) (i : nat) :
  criteria_idx criteria = Some i ->
  i < 3 /\ (criteria = "aic" \/ criteria = "kic" \/ criteria = "mdl").
Proof.
  unfold criteria_idx.
  destruct (String.eqb_spec criteria "aic");
    [intros [= <-]; split; [lia | tauto]|].
  destruct (String.eqb_spec criteria "kic");
    [intros [= <-]; split; [lia | tauto]|].
  destruct (String.eqb_spec criteria "mdl");
    [intros [= <-]; split; [lia | tauto]|].
  discriminate.
Qed.

Lemma criteria_curves_rows {num : Numerics} (EigenValues : list F) (N : Z)
  (p : nat) (itc : list (list F)) :
  criteria_curves EigenValues N p = Ok itc ->
  p <> 0 /\ forall i, i < 3 -> length (nth i itc []) = p - 1.
Proof.
  unfold criteria_curves.
  destruct (Nat.eqb_spec p 0) as [|Hp]; [discriminate|].
  intros [= <-]. split; [exact Hp|].
  intros [|[|[|i]]] Hi; simpl; rewrite ?length_map, ?length_seq;
    reflexivity || lia.
Qed.

(** X1. Whenever lines 152-191 return an order [comp_est], the criterion
    is one of "aic", "kic" and "mdl", there is at least one time point, and
    [comp_est] is at most [T - 1] and, for two time points or more, at
    least 1; with a single time point the curves are empty and [comp_est]
    is 0. *)
Theorem comp_est_between_1_and_T_minus_1 :
  forall (num : Numerics) (EigenValues : list F) (N : Z) (Nt : nat)
         (criteria : string) (comp_est : nat),
    order_of_spectrum EigenValues N Nt criteria = Ok comp_est ->
    (criteria = "aic" \/ criteria = "kic" \/ criteria = "mdl") /\
    1 <= Nt /\ comp_est <= Nt - 1 /\ (2 <= Nt -> 1 <= comp_est).
Proof.
  intros num EigenValues N Nt criteria comp_est H.
  unfold order_of_spectrum in H.
  bind_ok H. bind_ok H. bind_ok H.
  unfold estimate_order in H.
  destruct (criteria_idx criteria) as [i|] eqn:Hi; [|discriminate H].
  injection H as <-.
  apply criteria_idx_some in Hi. destruct Hi as [Hi Hname].
  match goal with E : criteria_curves _ _ _ = Ok _ |- _ =>
    apply criteria_curves_rows in E; destruct E as [Hp Hrows] end.
  pose proof (select_order_bounds (nth i a1 [])) as [Hle Hge].
  rewrite (Hrows i Hi) in Hle, Hge.
  split; [exact Hname|]. repeat split; try lia.
Qed.

Section OrderExample.

#[local] Existing Instance Exact.numerics.

Lemma comp_est_bounds_witness :
  order_of_spectrum (map Exact.real [5; 3]%Q) 4 2 "kic" = Ok 1 /\
  ("kic" = "aic" \/ "kic" = "kic" \/ "kic" = "mdl") /\
  1 <= 2 /\ 1 <= 2 - 1 /\ (2 <= 2 -> 1 <= 1).
Proof.
  assert (H : order_of_spectrum (map Exact.real [5; 3]%Q) 4 2 "kic" = Ok 1)
    by (vm_compute; reflexivity).
  split; [exact H|].
  exact (comp_est_between_1_and_T_minus_1 Exact.numerics
           (map Exact.real [5; 3]%Q) 4 2 "kic" 1 H).
Defined.

End OrderExample.

(** ** The depth loop *)

Lemma depth_loop_short (depth_of : nat -> result Z) :
  forall todo i acc,
    i + length todo <= 7 ->
    depth_loop depth_of todo i acc
    = (ds <- for_each depth_of todo ;; Ok (acc ++ ds)).
Proof.
  induction todo as [|j todo IH]; intros i acc Hlen; simpl.
  - rewrite app_nil_r. reflexivity.
  - destruct (depth_of j) as [d|e]; simpl; [|reflexivity].
    simpl in Hlen.
    destruct (Nat.ltb_spec 6 i) as [|_]; [lia|].
    rewrite IH by lia.
    destruct (for_each depth_of todo) as [ds|e]; simpl; [|reflexivity].
    rewrite <- app_assoc. reflexivity.
Qed.

(** X2. With at most seven probes the loop of lines 106-117 cannot stop
    early (the test of line 111 needs [i > 6], the eighth probe): it
    returns the depths of all probes in order, or raises what the first
    failing probe raises. *)
Theorem seven_probes_never_stop_early :
  forall (depth_of : nat -> result Z) (todo : list nat),
    length todo <= 7 ->
    depth_loop depth_of todo 0 [] = for_each depth_of todo.
Proof.
  intros depth_of todo Hlen.
  rewrite depth_loop_short by (simpl; lia).
  destruct (for_each depth_of todo); reflexivity.
Qed.

Lemma seven_probes_witness :
  length (seq 0 7) <= 7 /\
  depth_loop (fun j => Ok (nth j observed_depths 0%Z)) (seq 0 7) 0 []
  = for_each (fun j => Ok (nth j observed_depths 0%Z)) (seq 0 7).
Proof.
  assert (H : length (seq 0 7) <= 7) by (apply Nat.le_refl).
  split; [exact H|].
  exact (seven_probes_never_stop_early
           (fun j => Ok (nth j observed_depths 0%Z)) (seq 0 7) H).
Defined.

Lemma depth_loop_outcome (depth_of : nat -> result Z) :
  forall todo i acc l,
    length acc = i ->
    depth_loop depth_of todo i acc = Ok l ->
    (exists ds, for_each depth_of todo = Ok ds /\ l = acc ++ ds) \/
    (exists k ds d median,
       k < length todo /\ 7 <= i + k /\ length ds = k /\
       for_each depth_of (firstn (S k) todo) = Ok (ds ++ [d]) /\
       l = acc ++ ds /\
       median_depth l = Ok median /\ 6 < count_eq median l).
Proof.
  induction todo as [|j todo IH]; intros i acc l Hacc H; simpl in H.
  - injection H as <-. left. exists []. rewrite app_nil_r.
    split; reflexivity.
  - destruct (depth_of j) as [d0|e] eqn:Hd0; simpl in H; [|discriminate H].
    assert (Hrec : depth_loop depth_of todo (S i) (acc ++ [d0]) = Ok l ->
              (exists ds, for_each depth_of (j :: todo) = Ok ds /\
                          l = acc ++ ds) \/
              (exists k ds d median,
                 k < length (j :: todo) /\ 7 <= i + k /\ length ds = k /\
                 for_each depth_of (firstn (S k) (j :: todo)) = Ok (ds ++ [d]) /\
                 l = acc ++ ds /\
                 median_depth l = Ok median /\ 6 < count_eq median l)).
    { intros Hl. apply IH in Hl; [|rewrite length_app; simpl; lia].
      destruct Hl as [[ds [Hds ->]] | [k [ds [d [median H']]]]].
      - left. exists (d0 :: ds). simpl. rewrite Hd0, Hds. simpl.
        rewrite <- app_assoc. split; reflexivity.
      - destruct H' as [Hk [Hik [Hlen [Hds [-> [Hmed Hcount]]]]]].
        right. exists (S k), (d0 :: ds), d, median.
        rewrite <- app_assoc in *. simpl in *.
        repeat split; try lia; try assumption.
        rewrite Hd0. simpl. rewrite Hds. reflexivity. }
    destruct (Nat.ltb_spec 6 i) as [Hi|_]; [|exact (Hrec H)].
    assert (Hfirst : firstn i (acc ++ [d0]) = acc).
    { rewrite <- Hacc, firstn_app, Nat.sub_diag, firstn_all. simpl.
      apply app_nil_r. }
    rewrite Hfirst in H.
    destruct (np_median acc) as [m|] eqn:Hm; [|exact (Hrec H)].
    destruct (Nat.ltb_spec 6 (count_eq (np_round m) acc)) as [Hc|_];
      [|exact (Hrec H)].
    injection H as <-. right. exists 0, [], d0, (np_round m).
    rewrite app_nil_r. simpl. rewrite Hd0. simpl.
    unfold median_depth. rewrite Hm.
    repeat split; try lia; reflexivity.
Qed.

(** X3. Whatever the loop of lines 106-117 returns, it is either the
    depths of all probes, or, after an early stop at probe [k] (the
    [k + 1]-th, with [k >= 7]), the depths of the [k] probes before it: the
    depth [d] of probe [k] was computed and is left out. After an early
    stop the depth that line 119 computes from the kept depths is shared
    by more than six of them. *)
Theorem depth_loop_returns_all_or_consensus :
  forall (depth_of : nat -> result Z) (todo : list nat) (sub_iid_sp : list Z),
    depth_loop depth_of todo 0 [] = Ok sub_iid_sp ->
    for_each depth_of todo = Ok sub_iid_sp \/
    (exists k d median,
       7 <= k < length todo /\ length sub_iid_sp = k /\
       for_each depth_of (firstn (S k) todo) = Ok (sub_iid_sp ++ [d]) /\
       median_depth sub_iid_sp = Ok median /\
       6 < count_eq median sub_iid_sp).
Proof.
  intros depth_of todo l H.
  apply depth_loop_outcome in H; [|reflexivity].
  destruct H as [[ds [Hds ->]] | [k [ds [d [median H]]]]].
  - left. exact Hds.
  - destruct H as [Hk [Hik [Hlen [Hds [-> [Hmed Hcount]]]]]].
    right. exists k, d, median. simpl in *.
    repeat split; try lia; assumption.
Qed.

Lemma depth_loop_outcome_witness :
  depth_loop (fun j => Ok (nth j observed_depths 0%Z)) (seq 0 8) 0 []
  = Ok (firstn 7 observed_depths) /\
  (for_each (fun j => Ok (nth j observed_depths 0%Z)) (seq 0 8)
   = Ok (firstn 7 observed_depths) \/
   exists k d median,
     7 <= k < length (seq 0 8) /\ length (firstn 7 observed_depths) = k /\
     for_each (fun j => Ok (nth j observed_depths 0%Z)) (firstn (S k) (seq 0 8))
     = Ok (firstn 7 observed_depths ++ [d]) /\
     median_depth (firstn 7 observed_depths) = Ok median /\
     6 < count_eq median (firstn 7 observed_depths)).
Proof.
  assert (H : depth_loop (fun j => Ok (nth j observed_depths 0%Z))
                (seq 0 8) 0 []
              = Ok (firstn 7 observed_depths)) by (vm_compute; reflexivity).
  split; [exact H|].
  exact (depth_loop_returns_all_or_consensus
           (fun j => Ok (nth j observed_depths 0%Z)) (seq 0 8)
           (firstn 7 observed_depths) H).
Defined.

(** ** Number and range of the probes *)

Lemma length_dedup_le (l : list nat) : length (dedup l) <= length l.
Proof.
  induction l as [|x l IH]; [simpl; lia|].
  destruct l as [|y l]; [simpl; lia|].
  change (dedup (x :: y :: l))
    with (if x =? y then dedup (y :: l) else x :: dedup (y :: l)).
  destruct (x =? y); simpl in *; lia.
Qed.

Lemma length_np_unique_le (l : list nat) : length (np_unique l) <= length l.
Proof.
  unfold np_unique. pose proof (length_dedup_le (sort_by Nat.leb l)) as H.
  rewrite length_sort_by in H. exact H.
Qed.

Lemma In_firstn_keep {A : Type} (n : nat) (l : list A) (x : A) :
  In x (firstn n l) -> In x l.
Proof.
  intros H. rewrite <- (firstn_skipn n l). apply in_or_app. left. exact H.
Qed.

Lemma In_skipn_keep {A : Type} (n : nat) (l : list A) (x : A) :
  In x (skipn n l) -> In x l.
Proof.
  intros H. rewrite <- (firstn_skipn n l). apply in_or_app. right. exact H.
Qed.

Lemma length_filter_le_filter {A : Type} (P Q : A -> bool) (l : list A) :
  (forall x, P x = true -> Q x = true) ->
  length (filter P l) <= length (filter Q l).
Proof.
  intros HPQ. induction l as [|x l IH]; simpl; [lia|].
  destruct (P x) eqn:Px.
  - rewrite (HPQ x Px). simpl. lia.
  - destruct (Q x); simpl; lia.
Qed.

Section ProbeBounds.

Context {num : Numerics}.

Lemma length_idx_gauss_le (kurtv1 EigenValues : list F) :
  length (idx_gauss kurtv1 EigenValues) <= degrees_of_freedom EigenValues.
Proof.
  rewrite degrees_of_freedom_positions. unfold idx_gauss.
  apply length_filter_le_filter. intros i Hi. unfold gaussian_like in Hi.
  apply andb_true_iff in Hi. apply Hi.
Qed.

Lemma degrees_of_freedom_le (EigenValues : list F) :
  degrees_of_freedom EigenValues <= length EigenValues.
Proof. unfold degrees_of_freedom. apply filter_length_le. Qed.

End ProbeBounds.

Lemma no_probe_without_eigenvalue {num : Numerics}
  (kurt EigenValues : list F) :
  degrees_of_freedom EigenValues = 0 ->
  select_probes kurt EigenValues = Ok [] \/
  exists e, select_probes kurt EigenValues = Err e.
Proof.
  intros Hdfs. unfold select_probes.
  destruct (length kurt =? length EigenValues);
    [left | right; eexists; reflexivity].
  pose proof (length_idx_gauss_le (mark_large kurt EigenValues) EigenValues)
    as Hel.
  unfold pick_probes.
  destruct (Nat.leb_spec 12
              (length (idx_gauss (mark_large kurt EigenValues) EigenValues)))
    as [H12|_]; [lia|].
  rewrite Hdfs. reflexivity.
Qed.

(** X4. Whenever lines 76-99 return probes, there are at most twelve of
    them, each is a position of the eigenvalue array, and there is none
    exactly when no eigenvalue is above machine epsilon. *)
Theorem probes_at_most_twelve_and_in_range :
  forall (num : Numerics) (kurt EigenValues : list F) (probes : list nat),
    select_probes kurt EigenValues = Ok probes ->
    length probes <= 12 /\
    (forall j, In j probes -> j < length EigenValues) /\
    (probes = [] <-> degrees_of_freedom EigenValues = 0).
Proof.
  intros num kurt EigenValues probes H. unfold select_probes in H.
  destruct (length kurt =? length EigenValues); [|discriminate H].
  injection H as <-.
  set (eligible := idx_gauss (mark_large kurt EigenValues) EigenValues).
  pose proof (length_idx_gauss_le (mark_large kurt EigenValues) EigenValues)
    as Hel. fold eligible in Hel.
  pose proof (degrees_of_freedom_le EigenValues) as Hdfs.
  unfold pick_probes.
  destruct (Nat.leb_spec 12 (length eligible)) as [H12 | H12].
  - split; [|split].
    + eapply Nat.le_trans; [apply length_np_unique_le|].
      rewrite !length_app. unfold slice, last_n.
      rewrite !length_firstn, !length_skipn. lia.
    + intros j Hj. apply (proj1 (in_np_unique _ _)) in Hj.
      assert (Hin : In j eligible).
      { apply in_app_or in Hj. destruct Hj as [Hj | Hj];
          [exact (In_firstn_keep _ _ _ Hj)|].
        apply in_app_or in Hj. destruct Hj as [Hj | Hj].
        - unfold slice in Hj. apply In_firstn_keep in Hj.
          exact (In_skipn_keep _ _ _ Hj).
        - exact (In_skipn_keep _ _ _ Hj). }
      apply (proj1 (in_idx_gauss _ _ _)) in Hin. apply Hin.
    + split; [|lia]. intros Hnil. exfalso.
      destruct eligible as [|j0 rest] eqn:He; [simpl in H12; lia|].
      assert (Hin : In j0 (np_unique (firstn 4 (j0 :: rest) ++
                       slice (Z.to_nat (np_round
                                (Z.of_nat (length (j0 :: rest)) # 2)) - 1)
                             (Z.to_nat (np_round
                                (Z.of_nat (length (j0 :: rest)) # 2)) + 3)
                             (j0 :: rest) ++
                       last_n 4 (j0 :: rest)))).
      { apply in_np_unique. apply in_or_app. left. simpl. left. reflexivity. }
      rewrite Hnil in Hin. exact Hin.
  - rewrite np_unique_seq. split; [|split].
    + rewrite length_seq. apply Nat.le_min_l.
    + intros j Hj. apply in_seq in Hj. lia.
    + split.
      * intros Hnil. apply (f_equal (@length nat)) in Hnil.
        rewrite length_seq in Hnil. cbn [length] in Hnil. lia.
      * intros ->. reflexivity.
Qed.

Section ProbeBoundsExample.

#[local] Existing Instance Exact.numerics.

Lemma probes_bounds_witness :
  select_probes flat_kurtosis reversed_ascending_spectrum = Ok [0; 1] /\
  length [0; 1] <= 12 /\
  (forall j, In j [0; 1] -> j < length reversed_ascending_spectrum) /\
  ([0; 1] = [] <-> degrees_of_freedom reversed_ascending_spectrum = 0).
Proof.
  assert (H : select_probes flat_kurtosis reversed_ascending_spectrum
              = Ok [0; 1]) by (vm_compute; reflexivity).
  split; [exact H|].
  exact (probes_at_most_twelve_and_in_range Exact.numerics flat_kurtosis
           reversed_ascending_spectrum [0; 1] H).
Defined.

End ProbeBoundsExample.

(** X5. A run gets past line 119 only when some eigenvalue of the first
    decomposition is above machine epsilon and at least one probe was
    evaluated: without such an eigenvalue there is no probe, the median of
    the empty depth array is [nan], and [int] raises [ValueError]. *)
Theorem depth_needs_an_eigenvalue_above_eps :
  forall (num : Numerics) (co : Collaborators)
         (data_nib : ndarray F) (mask_nib : ndarray Z)
         sp Nt maskvec data EigenValues depth N,
    estimate_depth co data_nib mask_nib
    = Ok (sp, Nt, maskvec, data, EigenValues, depth, N) ->
    1 <= degrees_of_freedom EigenValues.
Proof.
  intros num co data_nib mask_nib sp Nt maskvec data EigenValues depth N H.
  apply estimate_depth_ok in H.
  destruct H as [V [Lambda [dataN [kurtv1 [idx [sub [median H]]]]]]].
  destruct H as [_ [_ [_ [_ [_ [Hsel [Hloop [Hmed _]]]]]]]].
  destruct (degrees_of_freedom EigenValues) as [|n] eqn:Hdfs; [|lia].
  destruct (no_probe_without_eigenvalue kurtv1 EigenValues Hdfs)
    as [Hnone | [e He]]; [|rewrite He in Hsel; discriminate Hsel].
  rewrite Hnone in Hsel. injection Hsel as <-.
  simpl in Hloop. injection Hloop as <-. discriminate Hmed.
Qed.

Section EigenvalueExample.

#[local] Existing Instance Exact.numerics.

Lemma depth_needs_an_eigenvalue_witness :
  estimate_depth demo_collaborators demo_data demo_mask
  = Ok ([2; 1; 1], 2, [1; 1]%Z,
        mk_ndarray [2; 2] (map Exact.real [1; 2; 3; 4]%Q),
        map Exact.real [2; 1]%Q, 1%Z, Finite 2) /\
  1 <= degrees_of_freedom (map Exact.real [2; 1]%Q).
Proof.
  assert (H : estimate_depth demo_collaborators demo_data demo_mask
              = Ok ([2; 1; 1], 2, [1; 1]%Z,
                    mk_ndarray [2; 2] (map Exact.real [1; 2; 3; 4]%Q),
                    map Exact.real [2; 1]%Q, 1%Z, Finite 2))
    by (vm_compute; reflexivity).
  split; [exact H|].
  exact (depth_needs_an_eigenvalue_above_eps Exact.numerics
           demo_collaborators demo_data demo_mask _ _ _ _ _ _ _ H).
Defined.

End EigenvalueExample.

(** ** The effective number of samples *)

Lemma np_round_lower (q : Q) (n : Z) : (inject_Z n <= q)%Q -> (n <= np_round q)%Z.
Proof.
  intros Hq.
  assert (Hf : (n <= Qfloor q)%Z).
  { rewrite <- (Qfloor_Z n). apply Qfloor_resp_le. exact Hq. }
  unfold np_round.
  destruct (Qcompare (q - inject_Z (Qfloor q)) (1 # 2)); [|lia|lia].
  destruct (Z.even (Qfloor q)); lia.
Qed.

Lemma np_round_upper (q : Q) (n : Z) : (q <= inject_Z n)%Q -> (np_round q <= n)%Z.
Proof.
  intros Hq.
  assert (Hf : (Qfloor q <= n)%Z).
  { rewrite <- (Qfloor_Z n). apply Qfloor_resp_le. exact Hq. }
  destruct (Z.eq_dec (Qfloor q) n) as [Heq | Hne].
  - unfold np_round. rewrite Heq.
    assert (Hlt : (q - inject_Z n < 1 # 2)%Q).
    { apply Qle_lt_trans with 0%Q; [|reflexivity].
      apply (Qplus_le_l _ _ (inject_Z n)). ring_simplify. exact Hq. }
    assert (Hc : Qcompare (q - inject_Z n) (1 # 2) = Lt)
      by (apply -> Qlt_alt; exact Hlt).
    rewrite Hc. lia.
  - unfold np_round.
    destruct (Qcompare (q - inject_Z (Qfloor q)) (1 # 2)); [|lia|lia].
    destruct (Z.even (Qfloor q)); lia.
Qed.

Lemma effective_samples_bounds (s depth : Z) (d : nat) :
  (1 <= depth)%Z -> (0 <= s)%Z ->
  exists n, effective_samples s depth d = Finite n /\
            (0 <= n <= s)%Z /\
            (forall nt : nat,
               (depth ^ Z.of_nat d * Z.of_nat nt <= s)%Z -> (Z.of_nat nt <= n)%Z).
Proof.
  intros Hdepth Hs. unfold effective_samples.
  assert (Hden : (1 <= depth ^ Z.of_nat d)%Z).
  { change 1%Z with (Z.succ 0). apply Z.le_succ_l.
    apply Z.pow_pos_nonneg; lia. }
  destruct (Z.eqb_spec (depth ^ Z.of_nat d) 0) as [E|_]; [lia|].
  eexists. split; [reflexivity|].
  assert (Hpos : (0 < inject_Z (depth ^ Z.of_nat d))%Q).
  { change 0%Q with (inject_Z 0). rewrite <- Zlt_Qlt. lia. }
  split; [split|].
  - apply np_round_lower. apply Qle_shift_div_l; [exact Hpos|].
    rewrite <- inject_Z_mult, <- Zle_Qle. lia.
  - apply np_round_upper. apply Qle_shift_div_r; [exact Hpos|].
    rewrite <- inject_Z_mult, <- Zle_Qle. nia.
  - intros nt Hfit. apply np_round_lower.
    apply Qle_shift_div_l; [exact Hpos|].
    rewrite <- inject_Z_mult, <- Zle_Qle. lia.
Qed.

Lemma effective_samples_depth_1 (s : Z) (d : nat) :
  effective_samples s 1 d = Finite s.
Proof.
  unfold effective_samples. rewrite Z.pow_1_l by lia. simpl Z.eqb.
  cbv iota. f_equal.
  apply Z.le_antisymm.
  - apply np_round_upper. unfold Qdiv. simpl Qinv.
    rewrite Qmult_1_r. apply Qle_refl.
  - apply np_round_lower. unfold Qdiv. simpl Qinv.
    rewrite Qmult_1_r. apply Qle_refl.
Qed.

(** X6. Whenever lines 53-121 leave a depth of at least one over a binary
    mask, the [N] of line 122 is finite and lies between 0 and the number
    of selected voxels; with a depth of one it is that number; and it is at
    least the number of time points [T] whenever [depth^3 * T] does not
    exceed the number of selected voxels. *)
Theorem effective_samples_at_most_voxel_count :
  forall (num : Numerics) (co : Collaborators)
         (data_nib : ndarray F) (mask_nib : ndarray Z)
         sp Nt maskvec data EigenValues depth N,
    estimate_depth co data_nib mask_nib
    = Ok (sp, Nt, maskvec, data, EigenValues, depth, N) ->
    Forall (fun m => m = 0%Z \/ m = 1%Z) maskvec ->
    (1 <= depth)%Z ->
    exists n,
      N = Finite n /\
      (0 <= n <= Z.of_nat (count_eq 1 maskvec))%Z /\
      (depth = 1%Z -> n = Z.of_nat (count_eq 1 maskvec)) /\
      ((depth ^ 3 * Z.of_nat Nt <= Z.of_nat (count_eq 1 maskvec))%Z ->
       (Z.of_nat Nt <= n)%Z).
Proof.
  intros num co data_nib mask_nib sp Nt maskvec data EigenValues depth N
         Hest Hbin Hge.
  apply estimate_depth_ok in Hest.
  destruct Hest as [V [Lambda [dataN [kurtv1 [idx [sub [median H]]]]]]].
  destruct H as [Hmask [_ [_ [_ [_ [_ [_ [_ [_ HN]]]]]]]]].
  apply mask_and_flatten_ok in Hmask.
  destruct Hmask as [Nx [Ny [Nz [V' [mv [_ [Hsp _]]]]]]].
  subst sp. cbn [length] in HN.
  pose proof (zsum_binary _ Hbin) as Hsum.
  destruct (effective_samples_bounds (zsum maskvec) depth 3 Hge)
    as [n [Hn [Hbounds Hlower]]]; [lia|].
  exists n. rewrite HN, Hn. split; [reflexivity|].
  split; [lia|]. split.
  - intros Hone. rewrite Hone, effective_samples_depth_1 in Hn.
    injection Hn as <-. exact Hsum.
  - intros Hfit. apply Hlower. rewrite Hsum. exact Hfit.
Qed.

Section SamplesExample.

#[local] Existing Instance Exact.numerics.

Lemma effective_samples_at_most_witness :
  Forall (fun m => m = 0%Z \/ m = 1%Z) [1; 1]%Z /\
  (1 <= 1)%Z /\
  exists n,
    Finite 2 = Finite n /\
    (0 <= n <= Z.of_nat (count_eq 1 [1; 1]%Z))%Z /\
    (1%Z = 1%Z -> n = Z.of_nat (count_eq 1 [1; 1]%Z)) /\
    ((1 ^ 3 * Z.of_nat 2 <= Z.of_nat (count_eq 1 [1; 1]%Z))%Z ->
     (Z.of_nat 2 <= n)%Z).
Proof.
  assert (Hbin : Forall (fun m => m = 0%Z \/ m = 1%Z) [1; 1]%Z).
  { repeat constructor; right; reflexivity. }
  assert (Hge : (1 <= 1)%Z) by apply Z.le_refl.
  split; [exact Hbin|]. split; [exact Hge|].
  apply (effective_samples_at_most_voxel_count Exact.numerics
           demo_collaborators demo_data demo_mask
           [2; 1; 1] 2 [1; 1]%Z
           (mk_ndarray [2; 2] (map Exact.real [1; 2; 3; 4]%Q))
           (map Exact.real [2; 1]%Q) 1%Z (Finite 2)
           eq_refl Hbin Hge).
Defined.

End SamplesExample.

(** ** The clamp of small eigenvalues *)

(** X7. Provided [np.min] returns an element of its argument and any two
    values compare one way or the other (no [nan]): lines 157-160 raise
    exactly when the eigenvalue array is not empty and no entry has a real
    part of at least machine epsilon; otherwise every entry of the result
    has a real part of at least machine epsilon, and only entries whose
    real part was at most machine epsilon were changed. *)
Theorem clamp_leaves_entries_at_least_eps :
  forall (num : Numerics),
    (forall l : list F, l <> [] -> In (np_min l) l) ->
    (forall a b : F, fle a b = false -> fle b a = true) ->
    forall EigenValues : list F,
      ((exists e, clamp_small EigenValues = Err e) <->
       EigenValues <> [] /\
       Forall (fun x => fle eps (freal x) = false) EigenValues) /\
      (forall clamped,
         clamp_small EigenValues = Ok clamped ->
         Forall (fun x => fle eps (freal x) = true) clamped /\
         Forall2 (fun x y => y = x \/ fle (freal x) eps = true)
                 EigenValues clamped).
Proof.
  intros num np_min_in fle_total EigenValues.
  unfold clamp_small.
  destruct (existsb (fun e => fle (freal e) eps) EigenValues) eqn:Hsmall.
  - destruct (filter (fun e => fle eps (freal e)) EigenValues)
      as [|v valid] eqn:Hvalid.
    + split.
      * split; [intros _ | intros _; eexists; reflexivity].
        split.
        -- intros ->. discriminate Hsmall.
        -- apply Forall_forall. intros x Hx.
           destruct (fle eps (freal x)) eqn:Hx'; [|reflexivity].
           assert (Hin : In x (filter (fun e => fle eps (freal e))
                                      EigenValues))
             by (apply filter_In; split; assumption).
           rewrite Hvalid in Hin. destruct Hin.
      * intros clamped H. discriminate H.
    + assert (Hm : fle eps (freal (np_min (v :: valid))) = true).
      { assert (Hin : In (np_min (v :: valid)) (v :: valid))
          by (apply np_min_in; discriminate).
        rewrite <- Hvalid in Hin. apply filter_In in Hin.
        destruct Hin as [_ Hin]. rewrite Hvalid in Hin. exact Hin. }
      split.
      * split; [intros [e H]; discriminate H|].
        intros [_ Hall]. exfalso.
        assert (Hin : In v (filter (fun e => fle eps (freal e)) EigenValues))
          by (rewrite Hvalid; left; reflexivity).
        apply filter_In in Hin. destruct Hin as [Hin Hv].
        rewrite Forall_forall in Hall. rewrite (Hall v Hin) in Hv.
        discriminate Hv.
      * intros clamped [= <-]. split.
        -- apply Forall_map. apply Forall_forall. intros x _.
           destruct (fle (freal x) eps) eqn:Hx; [exact Hm|].
           apply fle_total. exact Hx.
        -- clear. induction EigenValues as [|x l IH]; simpl; constructor;
             [|exact IH].
           destruct (fle (freal x) eps); [right | left]; reflexivity.
  - assert (Hnone : forall x, In x EigenValues -> fle (freal x) eps = false).
    { intros x Hx. destruct (fle (freal x) eps) eqn:E; [|reflexivity].
      assert (Hex : existsb (fun e => fle (freal e) eps) EigenValues = true)
        by (apply existsb_exists; exists x; split; assumption).
      rewrite Hex in Hsmall. discriminate Hsmall. }
    split.
    + split; [intros [e H]; discriminate H|].
      intros [Hne Hall]. exfalso.
      destruct EigenValues as [|x l]; [apply Hne; reflexivity|].
      apply Forall_inv in Hall.
      specialize (Hnone x (or_introl eq_refl)).
      apply fle_total in Hnone. rewrite Hnone in Hall. discriminate Hall.
    + intros clamped [= <-]. split.
      * apply Forall_forall. intros x Hx. apply fle_total.
        apply Hnone. exact Hx.
      * clear. induction EigenValues as [|x l IH]; constructor;
          [left; reflexivity | exact IH].
Qed.

Lemma exact_minimum_in (l : list Exact.C) :
  l <> [] -> In (Exact.minimum l) l.
Proof.
  destruct l as [|x l]; [intros H; exfalso; apply H; reflexivity|].
  intros _. simpl Exact.minimum. revert x.
  induction l as [|y l IH]; intros x; simpl; [left; reflexivity|].
  destruct (Exact.lt y x).
  - right. apply IH.
  - destruct (IH x) as [H | H]; [left; exact H | right; right; exact H].
Defined.

Lemma exact_le_total (a b : Exact.C) :
  Exact.le a b = false -> Exact.le b a = true.
Proof.
  unfold Exact.le. intros H. apply Qle_bool_iff.
  destruct (Qlt_le_dec (fst a) (fst b)) as [Hlt | Hle]; [|exact Hle].
  apply Qlt_le_weak in Hlt. apply Qle_bool_iff in Hlt.
  rewrite Hlt in H. discriminate H.
Defined.

Section ClampExample.

#[local] Existing Instance Exact.numerics.

Lemma clamp_witness :
  (forall l : list F, l <> [] -> In (np_min l) l) /\
  (forall a b : F, fle a b = false -> fle b a = true) /\
  clamp_small (map Exact.real [3; 2; -1]%Q) = Ok (map Exact.real [3; 2; 2]%Q) /\
  Forall (fun x => fle eps (freal x) = true) (map Exact.real [3; 2; 2]%Q) /\
  Forall2 (fun x y => y = x \/ fle (freal x) eps = true)
          (map Exact.real [3; 2; -1]%Q) (map Exact.real [3; 2; 2]%Q).
Proof.
  split; [exact exact_minimum_in|]. split; [exact exact_le_total|].
  assert (H : clamp_small (map Exact.real [3; 2; -1]%Q)
              = Ok (map Exact.real [3; 2; 2]%Q)) by (vm_compute; reflexivity).
  split; [exact H|].
  exact (proj2 (clamp_leaves_entries_at_least_eps Exact.numerics
                  exact_minimum_in exact_le_total
                  (map Exact.real [3; 2; -1]%Q))
               (map Exact.real [3; 2; 2]%Q) H).
Defined.

End ClampExample.

(** ** Real eigenvalues pass the check *)

(** X8. Provided a sum of zeros is zero: when every adjusted eigenvalue
    has a zero imaginary part, lines 152-153 do not raise, and lines
    152-191 give what the clamp, the criterion curves and the selection
    give. *)
Theorem real_eigenvalues_are_accepted :
  forall (num : Numerics),
    (forall l, Forall (fun x => feq x (of_Q 0) = true) l ->
               feq (np_sum l) (of_Q 0) = true) ->
    forall (EigenValues : list F) (N : Z) (Nt : nat) (criteria : string),
      Forall (fun e => feq (fimag e) (of_Q 0) = true) EigenValues ->
      order_of_spectrum EigenValues N Nt criteria
      = (clamped <- clamp_small EigenValues ;;
         itc <- criteria_curves clamped N Nt ;;
         estimate_order itc criteria).
Proof.
  intros num Hsum EigenValues N Nt criteria Hreal.
  unfold order_of_spectrum.
  rewrite (real_spectrum_passes_check Hsum EigenValues Hreal).
  reflexivity.
Qed.

Lemma exact_is_zero (a : Exact.C) :
  Exact.eq a (Exact.real 0) = true <-> (fst a == 0 /\ snd a == 0)%Q.
Proof.
  unfold Exact.eq. rewrite andb_true_iff, !Qeq_bool_iff. simpl. reflexivity.
Defined.

Lemma exact_fold_zeros (l : list Exact.C) :
  forall acc,
    Exact.eq acc (Exact.real 0) = true ->
    Forall (fun x => Exact.eq x (Exact.real 0) = true) l ->
    Exact.eq (fold_left Exact.add l acc) (Exact.real 0) = true.
Proof.
  induction l as [|x l IH]; intros acc Hacc Hall; simpl; [exact Hacc|].
  apply IH; [|exact (Forall_inv_tail Hall)].
  apply Forall_inv in Hall.
  apply exact_is_zero in Hacc. apply exact_is_zero in Hall.
  destruct Hacc as [Ha1 Ha2]. destruct Hall as [Hx1 Hx2].
  apply exact_is_zero. unfold Exact.add, Exact.mk. cbn [fst snd].
  rewrite !Qred_correct, Ha1, Ha2, Hx1, Hx2. split; reflexivity.
Defined.

Lemma exact_sum_zeros (l : list Exact.C) :
  Forall (fun x => Exact.eq x (Exact.real 0) = true) l ->
  Exact.eq (Exact.sum l) (Exact.real 0) = true.
Proof.
  intros Hall. unfold Exact.sum. apply exact_fold_zeros; [reflexivity|].
  exact Hall.
Defined.

Section RealExample.

#[local] Existing Instance Exact.numerics.

Lemma real_eigenvalues_witness :
  (forall l, Forall (fun x => feq x (of_Q 0) = true) l ->
             feq (np_sum l) (of_Q 0) = true) /\
  Forall (fun e => feq (fimag e) (of_Q 0) = true) (map Exact.real [5; 3]%Q) /\
  order_of_spectrum (map Exact.real [5; 3]%Q) 4 2 "mdl"
  = (clamped <- clamp_small (map Exact.real [5; 3]%Q) ;;
     itc <- criteria_curves clamped 4 2 ;;
     estimate_order itc "mdl").
Proof.
  assert (Hreal : Forall (fun e => feq (fimag e) (of_Q 0) = true)
                         (map Exact.real [5; 3]%Q))
    by (repeat constructor).
  split; [exact exact_sum_zeros|]. split; [exact Hreal|].
  exact (real_eigenvalues_are_accepted Exact.numerics exact_sum_zeros
           (map Exact.real [5; 3]%Q) 4 2 "mdl" Hreal).
Defined.

End RealExample.

(** ** The sentinel of line 77 *)

(** X9. Provided 1000 is not below 0.3: the positions of [idx_gauss] are
    exactly those whose eigenvalue is not above the mean eigenvalue and is
    above machine epsilon and whose statistic, as [utils._kurtn] returned
    it, is strictly between 0 and 0.3. A component with an eigenvalue above
    the mean is never used as a Gaussian component. *)
Theorem eligible_components_are_not_above_the_mean :
  forall (num : Numerics),
    flt (of_Q 1000) (of_Q (3 # 10)) = false ->
    forall (kurt EigenValues : list F),
      length kurt = length EigenValues ->
      forall i,
        In i (idx_gauss (mark_large kurt EigenValues) EigenValues) <->
        i < length EigenValues /\
        flt (np_mean EigenValues) (nth i EigenValues (of_Q 0)) = false /\
        flt (nth i kurt (of_Q 0)) (of_Q (3 # 10)) = true /\
        flt (of_Q 0) (nth i kurt (of_Q 0)) = true /\
        flt eps (nth i EigenValues (of_Q 0)) = true.
Proof.
  intros num Hsentinel kurt EigenValues Hlen i.
  rewrite in_idx_gauss. split.
  - intros [Hi H]. rewrite (nth_mark_large kurt EigenValues i Hlen Hi) in H.
    destruct (flt (np_mean EigenValues) (nth i EigenValues (of_Q 0))).
    + destruct H as [H _]. rewrite Hsentinel in H. discriminate H.
    + split; [exact Hi|]. split; [reflexivity | exact H].
  - intros [Hi [Hmean H]].
    rewrite (nth_mark_large kurt EigenValues i Hlen Hi), Hmean.
    split; [exact Hi | exact H].
Qed.

Section SentinelExample.

#[local] Existing Instance Exact.numerics.

Lemma eligible_components_witness :
  flt (of_Q 1000) (of_Q (3 # 10)) = false /\
  length flat_kurtosis = length reversed_ascending_spectrum /\
  forall i,
    In i (idx_gauss (mark_large flat_kurtosis reversed_ascending_spectrum)
                    reversed_ascending_spectrum) <->
    i < length reversed_ascending_spectrum /\
    flt (np_mean reversed_ascending_spectrum)
        (nth i reversed_ascending_spectrum (of_Q 0)) = false /\
    flt (nth i flat_kurtosis (of_Q 0)) (of_Q (3 # 10)) = true /\
    flt (of_Q 0) (nth i flat_kurtosis (of_Q 0)) = true /\
    flt eps (nth i reversed_ascending_spectrum (of_Q 0)) = true.
Proof.
  split; [reflexivity|]. split; [reflexivity|].
  exact (eligible_components_are_not_above_the_mean Exact.numerics
           eq_refl flat_kurtosis reversed_ascending_spectrum eq_refl).
Defined.

End SentinelExample.

(** ** Rows of a matrix *)

(** Row [i] of a matrix with [c] columns stored in [d]. *)
Lemma length_row {A : Type} (d : list A) (r c i : nat) :
  length d = r * c -> i < r -> length (firstn c (skipn (i * c) d)) = c.
Proof.
  intros Hd Hi. rewrite length_firstn, length_skipn, Hd. nia.
Qed.

Lemma nth_row {A : Type} (d : list A) (c i t : nat) (x : A) :
  t < c -> nth t (firstn c (skipn (i * c) d)) x = nth (i * c + t) d x.
Proof.
  intros Ht. rewrite nth_firstn.
  destruct (Nat.ltb_spec t c); [|lia]. apply nth_skipn.
Qed.

Lemma length_concat_uniform {A : Type} (c : nat) (rs : list (list A)) :
  Forall (fun r => length r = c) rs -> length (concat rs) = length rs * c.
Proof.
  induction 1 as [|r rs Hr _ IH]; simpl; [reflexivity|].
  rewrite length_app, IH, Hr. reflexivity.
Qed.

Lemma nth_concat_uniform {A : Type} (c : nat) (rs : list (list A)) (x : A) :
  Forall (fun r => length r = c) rs ->
  forall k t, k < length rs -> t < c ->
    nth (k * c + t) (concat rs) x = nth t (nth k rs []) x.
Proof.
  induction 1 as [|r rs Hr _ IH]; intros k t Hk Ht; [simpl in Hk; lia|].
  simpl concat. destruct k as [|k].
  - simpl. apply app_nth1. lia.
  - simpl in Hk. rewrite app_nth2 by (simpl; lia).
    replace (S k * c + t - length r) with (k * c + t) by (simpl; lia).
    simpl nth. apply IH; lia.
Qed.

Lemma map_nth_seq_with {A B : Type} (g : A -> B) (d : A) (l : list A) :
  map (fun k => g (nth k l d)) (seq 0 (length l)) = map g l.
Proof.
  rewrite <- (map_map (fun k => nth k l d) g), map_nth_seq. reflexivity.
Qed.

Lemma select_map {A B : Type} (g : A -> B) (mask : list Z) :
  forall l : list A, select mask (map g l) = map g (select mask l).
Proof.
  induction mask as [|m mask IH]; intros [|x l]; simpl; try reflexivity.
  destruct (m =? 1)%Z; simpl; rewrite IH; reflexivity.
Qed.

Lemma Forall_select {A : Type} (P : A -> Prop) (mask : list Z) :
  forall l : list A, Forall P l -> Forall P (select mask l).
Proof.
  induction mask as [|m mask IH]; intros [|x l] H; simpl;
    try constructor.
  destruct (m =? 1)%Z; [constructor|];
    try apply IH; try exact (Forall_inv H); exact (Forall_inv_tail H).
Qed.

Lemma flat_map_equal_on {A B : Type} (f g : A -> list B) (l : list A) :
  (forall x, In x l -> f x = g x) -> flat_map f l = flat_map g l.
Proof.
  intros H. rewrite !flat_map_concat_map. f_equal.
  apply map_ext_in. exact H.
Qed.

(** The rows that a mask selects, one after the other. *)
Lemma masked_rows_concat {A : Type} (mask : list Z) :
  forall (k : nat) (row : nat -> list A),
    flat_map (fun i => if (nth (i - k) mask 0 =? 1)%Z then row i else [])
             (seq k (length mask))
    = concat (select mask (map row (seq k (length mask)))).
Proof.
  induction mask as [|m mask IH]; intros k row; [reflexivity|].
  cbn [length seq flat_map map select].
  rewrite Nat.sub_diag. change (nth 0 (m :: mask) 0%Z) with m.
  assert (Htail : flat_map
            (fun i => if (nth (i - k) (m :: mask) 0 =? 1)%Z then row i else [])
            (seq (S k) (length mask))
          = concat (select mask (map row (seq (S k) (length mask))))).
  { rewrite <- IH. apply flat_map_equal_on.
    intros i Hi. apply in_seq in Hi.
    replace (i - k) with (S (i - S k)) by lia. reflexivity. }
  rewrite Htail. destruct (m =? 1)%Z; reflexivity.
Qed.

Lemma select_rows_concat {A : Type} (mask : list Z) (a : ndarray A) (r c : nat) :
  shape a = [r; c] -> length mask = r ->
  select_rows mask a
  = mk_ndarray [count_eq 1 mask; c]
      (concat (select mask
                 (map (fun i => firstn c (skipn (i * c) (cdata a)))
                      (seq 0 r)))).
Proof.
  intros Hsh Hlen. unfold select_rows. rewrite Hsh. f_equal.
  rewrite <- Hlen.
  rewrite <- (masked_rows_concat mask 0
                (fun i => firstn c (skipn (i * c) (cdata a)))).
  apply flat_map_ext. intros i. rewrite Nat.sub_0_r. reflexivity.
Qed.

Lemma rows_uniform {A : Type} (d : list A) (r c : nat) :
  length d = r * c ->
  Forall (fun row => length row = c)
         (map (fun i => firstn c (skipn (i * c) d)) (seq 0 r)).
Proof.
  intros Hd. apply Forall_forall. intros row Hrow.
  apply in_map_iff in Hrow. destruct Hrow as [i [<- Hi]].
  apply in_seq in Hi. apply (length_row d r c i Hd). lia.
Qed.

Lemma prod_matrix (r c : nat) : prod [r; c] = r * c.
Proof. simpl. lia. Qed.

(** ** The masked matrix *)

Lemma select_rows_wf {A : Type} (mask : list Z) (a : ndarray A) (r c : nat) :
  shape a = [r; c] -> wf a -> length mask = r ->
  shape (select_rows mask a) = [count_eq 1 mask; c] /\
  wf (select_rows mask a).
Proof.
  intros Hsh Hwf Hlen. rewrite (select_rows_concat mask a r c Hsh Hlen).
  split; [reflexivity|]. unfold wf. simpl shape. simpl cdata.
  unfold wf in Hwf. rewrite Hsh, prod_matrix in Hwf.
  rewrite (length_concat_uniform c).
  - rewrite length_select by (rewrite length_map, length_seq; exact Hlen).
    rewrite prod_matrix. reflexivity.
  - apply Forall_select. apply (rows_uniform _ r c Hwf).
Qed.

Lemma masked_matrix_shape_of_ok {num : Numerics}
  (data_nib : ndarray F) (mask_nib : ndarray Z) sp Nt maskvec data :
  wf data_nib -> wf mask_nib ->
  mask_and_flatten data_nib mask_nib = Ok (sp, Nt, maskvec, data) ->
  length maskvec = prod sp /\
  shape data = [count_eq 1 maskvec; Nt] /\ wf data.
Proof.
  intros Hwfd Hwfm Hmask. apply mask_and_flatten_ok in Hmask.
  destruct Hmask as [Nx [Ny [Nz [V [mv [Hsh [-> [HV [Hmv [-> ->]]]]]]]]]].
  assert (Hprod : prod [Nx; Ny; Nz] = Nx * Ny * Nz)
    by (unfold prod; cbn [fold_right]; ring).
  destruct (reshape_F_spec data_nib [Nx * Ny * Nz; Nt] Hwfd)
    as [V' [HV' [HshV [HwfV _]]]].
  { rewrite Hsh. unfold prod. cbn [fold_right]. ring. }
  rewrite HV in HV'. injection HV' as <-.
  destruct (reshape_F_spec mask_nib [Nx * Ny * Nz] Hwfm)
    as [mv' [Hmv' [Hshmv [Hwfmv _]]]].
  { unfold reshape_F in Hmv.
    destruct (Nat.eqb_spec (prod (shape mask_nib)) (prod [Nx * Ny * Nz]));
      [assumption | discriminate Hmv]. }
  rewrite Hmv in Hmv'. injection Hmv' as <-.
  assert (Hlen : length (cdata mv) = Nx * Ny * Nz).
  { unfold wf in Hwfmv. rewrite Hwfmv, Hshmv. apply prod_vector. }
  destruct (select_rows_wf (cdata mv) V (Nx * Ny * Nz) Nt HshV HwfV Hlen)
    as [Hshd Hwfdata].
  split; [congruence|]. split; assumption.
Qed.

(** X10. For well-formed arrays, lines 53-58 succeed exactly when the
    volume has four axes [(Nx, Ny, Nz, Nt)] and the mask has
    [Nx * Ny * Nz] elements, whatever its shape. The masked matrix then has
    one row per position at which the flattened mask is one and [Nt]
    columns. *)
Theorem masked_matrix_has_a_row_per_selected_voxel :
  forall (num : Numerics) (data_nib : ndarray F) (mask_nib : ndarray Z),
    wf data_nib -> wf mask_nib ->
    match mask_and_flatten data_nib mask_nib with
    | Ok (sp, Nt, maskvec, data) =>
        shape data_nib = sp ++ [Nt] /\ length sp = 3 /\
        prod (shape mask_nib) = prod sp /\
        length maskvec = prod sp /\
        shape data = [count_eq 1 maskvec; Nt] /\ wf data
    | Err _ =>
        forall Nx Ny Nz Nt,
          shape data_nib = [Nx; Ny; Nz; Nt] ->
          prod (shape mask_nib) <> Nx * Ny * Nz
    end.
Proof.
  intros num data_nib mask_nib Hwfd Hwfm. unfold mask_and_flatten.
  destruct (shape data_nib) as [|Nx [|Ny [|Nz [|Nt [|extra rest]]]]] eqn:Hsh;
    try (intros ? ? ? ? H; discriminate H).
  destruct (reshape_F_spec data_nib [Nx * Ny * Nz; Nt] Hwfd)
    as [V [HV [HshV [HwfV _]]]].
  { rewrite Hsh. unfold prod. cbn [fold_right]. ring. }
  rewrite HV. cbn [bind].
  destruct (Nat.eq_dec (prod (shape mask_nib)) (Nx * Ny * Nz)) as [Heq | Hne].
  - destruct (reshape_F_spec mask_nib [Nx * Ny * Nz] Hwfm)
      as [mv [Hmv [Hshmv [Hwfmv _]]]].
    { rewrite prod_vector. exact Heq. }
    rewrite Hmv. cbn [bind].
    assert (Hlen : length (cdata mv) = Nx * Ny * Nz).
    { unfold wf in Hwfmv. rewrite Hwfmv, Hshmv. apply prod_vector. }
    assert (Hprod : prod [Nx; Ny; Nz] = Nx * Ny * Nz)
      by (unfold prod; cbn [fold_right]; ring).
    destruct (select_rows_wf (cdata mv) V (Nx * Ny * Nz) Nt HshV HwfV Hlen)
      as [Hshd Hwfdata].
    repeat split; try assumption; try reflexivity; congruence.
  - rewrite reshape_F_mismatch by (rewrite prod_vector; exact Hne).
    cbn [bind]. intros Nx' Ny' Nz' Nt' H. injection H as <- <- <- <-.
    exact Hne.
Qed.

Section MaskedMatrixExample.

#[local] Existing Instance Exact.numerics.

Lemma masked_matrix_witness :
  wf demo_data /\ wf demo_mask /\
  match mask_and_flatten demo_data demo_mask with
  | Ok (sp, Nt, maskvec, data) =>
      shape demo_data = sp ++ [Nt] /\ length sp = 3 /\
      prod (shape demo_mask) = prod sp /\
      length maskvec = prod sp /\
      shape data = [count_eq 1 maskvec; Nt] /\ wf data
  | Err _ =>
      forall Nx Ny Nz Nt,
        shape demo_data = [Nx; Ny; Nz; Nt] ->
        prod (shape demo_mask) <> Nx * Ny * Nz
  end.
Proof.
  assert (Hd : wf demo_data) by reflexivity.
  assert (Hm : wf demo_mask) by reflexivity.
  split; [exact Hd|]. split; [exact Hm|].
  exact (masked_matrix_has_a_row_per_selected_voxel Exact.numerics
           demo_data demo_mask Hd Hm).
Defined.

End MaskedMatrixExample.

(** ** The basis after the reordering *)

Lemma nth_map_seq {B : Type} (f : nat -> B) (r i : nat) (d : B) :
  i < r -> nth i (map f (seq 0 r)) d = f i.
Proof.
  intros Hi.
  rewrite (nth_indep _ d (f 0)) by (rewrite length_map, length_seq; exact Hi).
  rewrite map_nth, seq_nth by exact Hi. reflexivity.
Qed.

Section Reordering.

Context {num : Numerics}.

Lemma cell_reverse_columns (V : ndarray F) (r c i j : nat) :
  shape V = [r; c] -> wf V -> i < r -> j < c ->
  cell c (cdata (reverse_columns V)) i j = cell c (cdata V) i (c - 1 - j).
Proof.
  intros Hsh Hwf Hi Hj. unfold reverse_columns, cell. rewrite Hsh.
  unfold wf in Hwf. rewrite Hsh, prod_matrix in Hwf. simpl cdata.
  rewrite flat_map_concat_map.
  rewrite (nth_concat_uniform c).
  - rewrite nth_map_seq by exact Hi.
    rewrite rev_nth by (rewrite (length_row _ r c i Hwf Hi); exact Hj).
    rewrite (length_row _ r c i Hwf Hi).
    rewrite nth_row by lia. f_equal. lia.
  - apply Forall_forall. intros row Hrow.
    apply in_map_iff in Hrow. destruct Hrow as [k [<- Hk]].
    apply in_seq in Hk. rewrite length_rev.
    apply (length_row _ r c k Hwf). lia.
  - rewrite length_map, length_seq. exact Hi.
  - exact Hj.
Qed.

End Reordering.

(** X11. Lines 69-70 keep the basis and the spectrum aligned: for a basis
    of [c] columns and a spectrum of [c] entries, column [j] of
    [V[:, ::-1]] is column [c - 1 - j] of [V], and entry [j] of
    [EigenValues[::-1]] is entry [c - 1 - j] of what the decomposition
    returned. *)
Theorem reversed_basis_stays_aligned_with_spectrum :
  forall (num : Numerics) (V : ndarray F) (Lambda : list F) (r c j : nat),
    shape V = [r; c] -> wf V -> length Lambda = c -> j < c ->
    column (reverse_columns V) j = column V (c - 1 - j) /\
    nth j (rev Lambda) (of_Q 0) = nth (c - 1 - j) Lambda (of_Q 0).
Proof.
  intros num V Lambda r c j Hsh Hwf Hlen Hj. split.
  - unfold column.
    assert (Hrev : shape (reverse_columns V) = [r; c])
      by (unfold reverse_columns; rewrite Hsh; reflexivity).
    rewrite Hrev, Hsh.
    destruct (Nat.ltb_spec j c) as [_|]; [|lia].
    destruct (Nat.ltb_spec (c - 1 - j) c) as [_|]; [|lia].
    f_equal. apply map_ext_in. intros i Hi. apply in_seq in Hi.
    apply (cell_reverse_columns V r c i j Hsh Hwf); lia.
  - rewrite rev_nth by lia. f_equal. lia.
Qed.

Section ReorderingExample.

#[local] Existing Instance Exact.numerics.

Lemma reversed_basis_witness :
  shape (Exact.eye 2 2) = [2; 2] /\ wf (Exact.eye 2 2) /\
  length (map Exact.real [1; 2]%Q) = 2 /\ 0 < 2 /\
  column (reverse_columns (Exact.eye 2 2)) 0
  = column (Exact.eye 2 2) (2 - 1 - 0) /\
  nth 0 (rev (map Exact.real [1; 2]%Q)) (of_Q 0)
  = nth (2 - 1 - 0) (map Exact.real [1; 2]%Q) (of_Q 0).
Proof.
  assert (H1 : shape (Exact.eye 2 2) = [2; 2]) by reflexivity.
  assert (H2 : wf (Exact.eye 2 2)) by reflexivity.
  assert (H3 : length (map Exact.real [1; 2]%Q) = 2) by reflexivity.
  assert (H4 : 0 < 2) by (apply Nat.lt_0_succ).
  split; [exact H1|]. split; [exact H2|]. split; [exact H3|].
  split; [exact H4|].
  exact (reversed_basis_stays_aligned_with_spectrum Exact.numerics
           (Exact.eye 2 2) (map Exact.real [1; 2]%Q) 2 2 0 H1 H2 H3 H4).
Defined.

End ReorderingExample.

(** ** The volume of one time point *)

Lemma unravel_F_time (sp : list nat) (Nt : nat) :
  forall r t, r < prod sp ->
    unravel_F (sp ++ [Nt]) (r + prod sp * t) = unravel_F sp r ++ [t mod Nt].
Proof.
  induction sp as [|n sp IH]; intros r t Hr.
  - simpl in Hr. replace r with 0 by lia. simpl.
    rewrite Nat.add_0_r. reflexivity.
  - rewrite prod_cons in *.
    assert (Hn : n <> 0) by (intros ->; simpl in Hr; lia).
    simpl. f_equal.
    + replace (r + n * prod sp * t) with (r + (prod sp * t) * n) by ring.
      apply Nat.Div0.mod_add.
    + replace (r + n * prod sp * t) with (r + (prod sp * t) * n) by ring.
      rewrite Nat.div_add by exact Hn.
      apply IH. apply Nat.Div0.div_lt_upper_bound. lia.
Qed.

Lemma in_range_app (idx sp : list nat) (t Nt : nat) :
  in_range idx sp -> t < Nt -> in_range (idx ++ [t]) (sp ++ [Nt]).
Proof.
  intros H Ht. apply Forall2_app; [exact H|].
  constructor; [exact Ht | constructor].
Qed.

Lemma get_in_range {A : Type} (a : ndarray A) (idx : list nat) :
  wf a -> in_range idx (shape a) -> exists v, get a idx = Some v.
Proof.
  intros Hwf Hidx. unfold get.
  destruct (nth_error (cdata a) (ravel_C (shape a) idx)) as [v|] eqn:E;
    [exists v; reflexivity|].
  apply nth_error_None in E. pose proof (ravel_C_lt _ _ Hidx) as Hlt.
  unfold wf in Hwf. lia.
Qed.

Lemma nth_error_map_seq' {B : Type} (g : nat -> B) (n c : nat) :
  c < n -> nth_error (map g (seq 0 n)) c = Some (g c).
Proof.
  intros Hc. rewrite nth_error_map, nth_error_seq.
  destruct (Nat.ltb_spec c n); [reflexivity | lia].
Qed.

Section Frames.

Context {num : Numerics}.

Lemma column_select_rows (mask : list Z) (a : ndarray F) (r c t : nat) :
  shape a = [r; c] -> wf a -> length mask = r -> t < c ->
  column (select_rows mask a) t
  = Ok (select mask (map (fun i => cell c (cdata a) i t) (seq 0 r))).
Proof.
  intros Hsh Hwf Hlen Ht.
  rewrite (select_rows_concat mask a r c Hsh Hlen).
  unfold wf in Hwf. rewrite Hsh, prod_matrix in Hwf.
  set (rowf := fun i => firstn c (skipn (i * c) (cdata a))).
  set (rs := select mask (map rowf (seq 0 r))).
  assert (Huni : Forall (fun row => length row = c) rs)
    by (apply Forall_select, (rows_uniform _ r c Hwf)).
  assert (Hcount : count_eq 1 mask = length rs).
  { unfold rs. rewrite length_select; [reflexivity|].
    rewrite length_map, length_seq. exact Hlen. }
  unfold column. cbn [shape cdata].
  destruct (Nat.ltb_spec t c) as [_|]; [|lia]. f_equal.
  rewrite Hcount.
  transitivity (map (fun k => nth t (nth k rs []) (of_Q 0))
                    (seq 0 (length rs))).
  { apply map_ext_in. intros k Hk. apply in_seq in Hk.
    unfold cell. apply (nth_concat_uniform c rs (of_Q 0) Huni); lia. }
  rewrite (map_nth_seq_with (fun row => nth t row (of_Q 0)) [] rs).
  unfold rs. rewrite <- select_map, map_map. f_equal.
  apply map_ext. intros i. unfold rowf, cell. apply nth_row. exact Ht.
Qed.

Lemma flattened_volume_cell (data_nib V : ndarray F) (sp : list nat)
  (Nt r t : nat) :
  wf data_nib -> shape data_nib = sp ++ [Nt] ->
  reshape_F data_nib [prod sp; Nt] = Ok V ->
  r < prod sp -> t < Nt ->
  nth_error (cdata V) (r * Nt + t) = get data_nib (unravel_F sp r ++ [t]).
Proof.
  intros Hwf Hsh HV Hr Ht.
  destruct (reshape_F_spec data_nib [prod sp; Nt] Hwf)
    as [V' [HV' [HshV [_ Hget]]]].
  { rewrite Hsh. clear. induction sp as [|n sp IH]; simpl in *; lia. }
  rewrite HV in HV'. injection HV' as <-.
  assert (Hidx : in_range [r; t] [prod sp; Nt]).
  { constructor; [exact Hr|]. constructor; [exact Ht | constructor]. }
  specialize (Hget [r; t] Hidx). unfold get in Hget at 1.
  rewrite HshV in Hget. simpl ravel_C in Hget.
  replace (r * (Nt * 1) + (t * 1 + 0)) with (r * Nt + t) in Hget by lia.
  rewrite Hget, Hsh. f_equal. simpl ravel_F.
  replace (r + prod sp * (t + Nt * 0)) with (r + prod sp * t) by lia.
  rewrite unravel_F_time by exact Hr.
  rewrite Nat.mod_small by exact Ht. reflexivity.
Qed.

End Frames.

(** X12. For well-formed inputs and every time point [t], the volume that
    lines 130-132 rebuild from column [t] of the masked matrix has the
    spatial shape of the input and holds, at every voxel at which the
    flattened mask is one, the value of the input volume at that voxel and
    time point, and zero at every other voxel. *)
Theorem rebuilt_volume_is_the_masked_frame :
  forall (num : Numerics) (data_nib : ndarray F) (mask_nib : ndarray Z)
         sp Nt maskvec data (t : nat),
    wf data_nib -> wf mask_nib ->
    mask_and_flatten data_nib mask_nib = Ok (sp, Nt, maskvec, data) ->
    t < Nt ->
    exists vals vol,
      column data t = Ok vals /\
      to_volume sp maskvec vals = Ok vol /\
      shape vol = sp /\ wf vol /\
      forall idx, in_range idx sp ->
        (nth (ravel_F sp idx) maskvec 0%Z = 1%Z ->
         get vol idx = get data_nib (idx ++ [t])) /\
        (nth (ravel_F sp idx) maskvec 0%Z <> 1%Z ->
         get vol idx = Some (of_Q 0)).
Proof.
  intros num data_nib mask_nib sp Nt maskvec data t Hwfd Hwfm Hmask Ht.
  apply mask_and_flatten_ok in Hmask.
  destruct Hmask as [Nx [Ny [Nz [V [mv [Hsh [-> [HV [Hmv [-> ->]]]]]]]]]].
  set (sp := [Nx; Ny; Nz]) in *.
  assert (Hprod : Nx * Ny * Nz = prod sp)
    by (unfold sp, prod; cbn [fold_right]; ring).
  rewrite Hprod in HV, Hmv.
  assert (Hsh' : shape data_nib = sp ++ [Nt]) by exact Hsh.
  destruct (reshape_F_spec data_nib [prod sp; Nt] Hwfd)
    as [V' [HV' [HshV [HwfV _]]]].
  { rewrite Hsh. unfold sp, prod. cbn [fold_right]. ring. }
  rewrite HV in HV'. injection HV' as <-.
  destruct (reshape_F_spec mask_nib [prod sp] Hwfm)
    as [mv' [Hmv' [Hshmv [Hwfmv _]]]].
  { unfold reshape_F in Hmv.
    destruct (Nat.eqb_spec (prod (shape mask_nib)) (prod [prod sp]));
      [assumption | discriminate Hmv]. }
  rewrite Hmv in Hmv'. injection Hmv' as <-.
  assert (Hlen : length (cdata mv) = prod sp).
  { unfold wf in Hwfmv. rewrite Hwfmv, Hshmv. apply prod_vector. }
  set (xs := map (fun i => cell Nt (cdata V) i t) (seq 0 (prod sp))).
  assert (Hxs : length xs = prod sp)
    by (unfold xs; rewrite length_map, length_seq; reflexivity).
  exists (select (cdata mv) xs).
  unfold to_volume, masked_assign.
  rewrite (length_select (cdata mv) xs) by congruence.
  rewrite Nat.eqb_refl. cbn [bind].
  destruct (vector_to_volume (scatter (of_Q 0) (cdata mv)
                                (select (cdata mv) xs)) sp)
    as [vol [Hvol [Hshvol [Hwfvol Hget]]]].
  { rewrite length_scatter. exact Hlen. }
  exists vol.
  split; [exact (column_select_rows (cdata mv) V (prod sp) Nt t
                   HshV HwfV Hlen Ht)|].
  split; [exact Hvol|]. split; [exact Hshvol|]. split; [exact Hwfvol|].
  intros idx Hidx.
  pose proof (ravel_F_lt sp idx Hidx) as Hj.
  set (j := ravel_F sp idx) in *.
  destruct (get_in_range data_nib (idx ++ [t]) Hwfd) as [v Hv].
  { rewrite Hsh'. apply in_range_app; assumption. }
  assert (Hxj : nth_error xs j = Some v).
  { unfold xs. rewrite nth_error_map_seq' by exact Hj. f_equal.
    unfold cell. apply nth_error_nth.
    rewrite (flattened_volume_cell data_nib V sp Nt j t Hwfd Hsh' HV Hj Ht).
    unfold j. rewrite unravel_F_ravel_F by exact Hidx. exact Hv. }
  assert (Hmj : nth_error (cdata mv) j = Some (nth j (cdata mv) 0%Z))
    by (apply nth_error_nth'; lia).
  rewrite (Hget idx Hidx). fold j.
  rewrite (scatter_select_nth_error (of_Q 0) (cdata mv) xs j _ v Hmj Hxj).
  split.
  - intros ->. rewrite Hv. reflexivity.
  - intros Hne. destruct (Z.eqb_spec (nth j (cdata mv) 0%Z) 1);
      [contradiction | reflexivity].
Qed.

Section FrameExample.

#[local] Existing Instance Exact.numerics.

Lemma rebuilt_volume_witness :
  wf demo_data /\ wf demo_mask /\ 0 < 2 /\
  mask_and_flatten demo_data demo_mask
  = Ok ([2; 1; 1], 2, [1; 1]%Z,
        mk_ndarray [2; 2] (map Exact.real [1; 2; 3; 4]%Q)) /\
  exists vals vol,
    column (mk_ndarray [2; 2] (map Exact.real [1; 2; 3; 4]%Q)) 0 = Ok vals /\
    to_volume [2; 1; 1] [1; 1]%Z vals = Ok vol /\
    shape vol = [2; 1; 1] /\ wf vol /\
    forall idx, in_range idx [2; 1; 1] ->
      (nth (ravel_F [2; 1; 1] idx) [1; 1]%Z 0%Z = 1%Z ->
       get vol idx = get demo_data (idx ++ [0])) /\
      (nth (ravel_F [2; 1; 1] idx) [1; 1]%Z 0%Z <> 1%Z ->
       get vol idx = Some (of_Q 0)).
Proof.
  assert (Hd : wf demo_data) by reflexivity.
  assert (Hm : wf demo_mask) by reflexivity.
  assert (Ht : 0 < 2) by (apply Nat.lt_0_succ).
  assert (H : mask_and_flatten demo_data demo_mask
              = Ok ([2; 1; 1], 2, [1; 1]%Z,
                    mk_ndarray [2; 2] (map Exact.real [1; 2; 3; 4]%Q)))
    by (vm_compute; reflexivity).
  split; [exact Hd|]. split; [exact Hm|]. split; [exact Ht|].
  split; [exact H|].
  exact (rebuilt_volume_is_the_masked_frame Exact.numerics
           demo_data demo_mask [2; 1; 1] 2 [1; 1]%Z
           (mk_ndarray [2; 2] (map Exact.real [1; 2; 3; 4]%Q)) 0
           Hd Hm H Ht).
Defined.

End FrameExample.

(** ** The volume of a probe *)

(** X13. For well-formed inputs, whenever the projection of line 70
    succeeds, lines 107-109 cannot raise for a probe below the number of
    columns of the basis: the collaborator that estimates the lag receives
    a well-formed volume of the spatial shape of the input, and the depth
    of the probe is its lag plus one. *)
Theorem probe_volume_is_well_formed :
  forall (num : Numerics) (co : Collaborators)
         (data_nib : ndarray F) (mask_nib : ndarray Z)
         sp Nt maskvec data (W dataN : ndarray F) (j : nat),
    wf data_nib -> wf mask_nib ->
    mask_and_flatten data_nib mask_nib = Ok (sp, Nt, maskvec, data) ->
    dot data W = Ok dataN ->
    j < nth 1 (shape W) 0 ->
    exists vol,
      shape vol = sp /\ wf vol /\
      probe_depth co sp maskvec dataN j
      = (lag <- est_indp_sp co vol ;; Ok (lag + 1)%Z).
Proof.
  intros num co data_nib mask_nib sp Nt maskvec data W dataN j
         Hwfd Hwfm Hmask Hdot Hj.
  pose proof (masked_matrix_shape_of_ok data_nib mask_nib sp Nt maskvec data
                Hwfd Hwfm Hmask) as [Hlen [Hshd _]].
  unfold dot in Hdot. rewrite Hshd in Hdot.
  destruct (shape W) as [|k' [|m [|]]] eqn:HshW; try discriminate Hdot.
  destruct (Nt =? k'); [|discriminate Hdot].
  injection Hdot as <-. simpl in Hj.
  unfold probe_depth, column. cbn [shape cdata].
  destruct (Nat.ltb_spec j m) as [_|]; [|lia]. cbn [bind].
  unfold to_volume, masked_assign.
  rewrite length_map, length_seq, Nat.eqb_refl. cbn [bind].
  match goal with |- context [scatter ?z ?mk ?vs] =>
    destruct (vector_to_volume (scatter z mk vs) sp)
      as [vol [Hvol [Hshvol [Hwfvol _]]]];
      [rewrite length_scatter; exact Hlen|] end.
  exists vol. split; [exact Hshvol|]. split; [exact Hwfvol|].
  rewrite Hvol. cbn [bind].
  destruct (est_indp_sp co vol); reflexivity.
Qed.

Section ProbeVolumeExample.

#[local] Existing Instance Exact.numerics.

Lemma probe_volume_witness :
  wf demo_data /\ wf demo_mask /\
  mask_and_flatten demo_data demo_mask
  = Ok ([2; 1; 1], 2, [1; 1]%Z,
        mk_ndarray [2; 2] (map Exact.real [1; 2; 3; 4]%Q)) /\
  dot (mk_ndarray [2; 2] (map Exact.real [1; 2; 3; 4]%Q))
      (reverse_columns (Exact.eye 2 2))
  = Ok (mk_ndarray [2; 2] (map Exact.real [2; 1; 4; 3]%Q)) /\
  0 < nth 1 (shape (reverse_columns (Exact.eye 2 2))) 0 /\
  exists vol,
    shape vol = [2; 1; 1] /\ wf vol /\
    probe_depth demo_collaborators [2; 1; 1] [1; 1]%Z
      (mk_ndarray [2; 2] (map Exact.real [2; 1; 4; 3]%Q)) 0
    = (lag <- est_indp_sp demo_collaborators vol ;; Ok (lag + 1)%Z).
Proof.
  assert (Hd : wf demo_data) by reflexivity.
  assert (Hm : wf demo_mask) by reflexivity.
  assert (H : mask_and_flatten demo_data demo_mask
              = Ok ([2; 1; 1], 2, [1; 1]%Z,
                    mk_ndarray [2; 2] (map Exact.real [1; 2; 3; 4]%Q)))
    by (vm_compute; reflexivity).
  assert (Hdot : dot (mk_ndarray [2; 2] (map Exact.real [1; 2; 3; 4]%Q))
                     (reverse_columns (Exact.eye 2 2))
                 = Ok (mk_ndarray [2; 2] (map Exact.real [2; 1; 4; 3]%Q)))
    by (vm_compute; reflexivity).
  assert (Hj : 0 < nth 1 (shape (reverse_columns (Exact.eye 2 2))) 0)
    by (apply Nat.lt_0_succ).
  split; [exact Hd|]. split; [exact Hm|]. split; [exact H|].
  split; [exact Hdot|]. split; [exact Hj|].
  exact (probe_volume_is_well_formed Exact.numerics demo_collaborators
           demo_data demo_mask [2; 1; 1] 2 [1; 1]%Z
           (mk_ndarray [2; 2] (map Exact.real [1; 2; 3; 4]%Q))
           (reverse_columns (Exact.eye 2 2))
           (mk_ndarray [2; 2] (map Exact.real [2; 1; 4; 3]%Q)) 0
           Hd Hm H Hdot Hj).
Defined.

End ProbeVolumeExample.

(** ** The resampled matrix *)

Lemma length_for_each {A B : Type} (body : B -> result A) (l : list B) :
  forall ys, for_each body l = Ok ys -> length ys = length l.
Proof.
  induction l as [|x l IH]; intros ys H; simpl in H.
  - injection H as <-. reflexivity.
  - bind_ok H. bind_ok H. injection H as <-. simpl. f_equal.
    apply IH. reflexivity.
Qed.

Lemma of_columns_wf {num : Numerics} (rows : nat) (cols : list (list F)) :
  wf (of_columns rows cols).
Proof.
  unfold wf, of_columns. simpl shape. simpl cdata.
  rewrite flat_map_concat_map, (length_concat_uniform (length cols)).
  - rewrite length_map, length_seq, prod_matrix. reflexivity.
  - apply Forall_forall. intros row Hrow. apply in_map_iff in Hrow.
    destruct Hrow as [r [<- _]]. apply length_map.
Qed.

(** X14. Whenever lines 125-135 produce the resampled matrix [dat], the
    sum of the flattened subsampled mask is not negative (a negative sum
    makes [np.zeros] raise), and [dat] is a well-formed matrix with that
    many rows and one column per time point. *)
Theorem resampled_matrix_has_a_column_per_time_point :
  forall (num : Numerics) (co : Collaborators)
         (sp : list nat) (Nt : nat) (maskvec : list Z) (data : ndarray F)
         (depth : Z) (dat : ndarray F),
    resample co sp Nt maskvec data depth = Ok dat ->
    exists mask_ND mask_s mask_s_1d,
      reshape_F (mk_ndarray [prod sp] maskvec) sp = Ok mask_ND /\
      subsampling co mask_ND depth = Ok mask_s /\
      reshape_F mask_s [prod (shape mask_s)] = Ok mask_s_1d /\
      (0 <= zsum (cdata mask_s_1d))%Z /\
      shape dat = [Z.to_nat (zsum (cdata mask_s_1d)); Nt] /\
      wf dat.
Proof.
  intros num co sp Nt maskvec data depth dat H. unfold resample in H.
  bind_ok H. bind_ok H. bind_ok H. bind_ok H. bind_ok H.
  injection H as <-.
  exists a, a0, a1. repeat split; try assumption.
  - match goal with E : row_count _ = Ok _ |- _ =>
      unfold row_count in E;
      destruct (Z.ltb_spec (zsum (cdata a1)) 0); [discriminate E | lia] end.
  - match goal with E : row_count _ = Ok _ |- _ =>
      unfold row_count in E;
      destruct (Z.ltb_spec (zsum (cdata a1)) 0); [discriminate E|];
      injection E as <- end.
    match goal with E : for_each _ _ = Ok _ |- _ =>
      apply length_for_each in E; rewrite length_seq in E end.
    unfold of_columns. simpl. congruence.
  - apply of_columns_wf.
Qed.

Section ResampleExample.

#[local] Existing Instance Exact.numerics.

Lemma resampled_matrix_witness :
  resample demo_collaborators [2; 1; 1] 2 [1; 1]%Z
    (mk_ndarray [2; 2] (map Exact.real [1; 2; 3; 4]%Q)) 2
  = Ok (mk_ndarray [2; 2] (map Exact.real [1; 2; 3; 4]%Q)) /\
  exists mask_ND mask_s mask_s_1d,
    reshape_F (mk_ndarray [prod [2; 1; 1]] [1; 1]%Z) [2; 1; 1] = Ok mask_ND /\
    subsampling demo_collaborators mask_ND 2 = Ok mask_s /\
    reshape_F mask_s [prod (shape mask_s)] = Ok mask_s_1d /\
    (0 <= zsum (cdata mask_s_1d))%Z /\
    shape (mk_ndarray [2; 2] (map Exact.real [1; 2; 3; 4]%Q))
    = [Z.to_nat (zsum (cdata mask_s_1d)); 2] /\
    wf (mk_ndarray [2; 2] (map Exact.real [1; 2; 3; 4]%Q)).
Proof.
  assert (H : resample demo_collaborators [2; 1; 1] 2 [1; 1]%Z
                (mk_ndarray [2; 2] (map Exact.real [1; 2; 3; 4]%Q)) 2
              = Ok (mk_ndarray [2; 2] (map Exact.real [1; 2; 3; 4]%Q)))
    by (vm_compute; reflexivity).
  split; [exact H|].
  exact (resampled_matrix_has_a_column_per_time_point Exact.numerics
           demo_collaborators [2; 1; 1] 2 [1; 1]%Z
           (mk_ndarray [2; 2] (map Exact.real [1; 2; 3; 4]%Q)) 2
           (mk_ndarray [2; 2] (map Exact.real [1; 2; 3; 4]%Q)) H).
Defined.

End ResampleExample.

(** ** What a returned decomposition implies *)

Lemma format_int_ok_depth (s depth : Z) (d : nat) (N : Z) :
  format_int (effective_samples s depth d) = Ok N -> depth <> 0%Z \/ d = 0.
Proof.
  unfold effective_samples. intros H.
  destruct (Z.eqb_spec (depth ^ Z.of_nat d) 0) as [Hden|Hden].
  - destruct (s =? 0)%Z; discriminate H.
  - destruct (Nat.eq_dec d 0) as [->|Hd]; [right; reflexivity|].
    left. intros ->. apply Hden. apply Z.pow_0_l. lia.
Qed.

(** X15. Whenever [ma_pca] returns a decomposition: the criterion is one
    of "aic", "kic" and "mdl"; the subsampling depth is not zero (so that
    [N] is finite and line 146 can format it); and the PCA of line 196 was
    asked for [comp_est] components on the masked matrix, with [comp_est]
    at most [T - 1] and, for two time points or more, at least 1. *)
Theorem returned_decomposition_has_order_in_range :
  forall (num : Numerics) (co : Collaborators)
         (data_nib : ndarray F) (mask_nib : ndarray Z) (criteria : string)
         out,
    ma_pca co data_nib mask_nib criteria = Ok out ->
    (criteria = "aic" \/ criteria = "kic" \/ criteria = "mdl") /\
    exists sp Nt maskvec data EigenValues depth N comp_est ppca,
      estimate_depth co data_nib mask_nib
      = Ok (sp, Nt, maskvec, data, EigenValues, depth, N) /\
      depth <> 0%Z /\
      pca_fit co comp_est data = Ok ppca /\
      1 <= Nt /\ comp_est <= Nt - 1 /\ (2 <= Nt -> 1 <= comp_est).
Proof.
  intros num co data_nib mask_nib criteria out H.
  apply ma_pca_ok in H.
  destruct H as [data [Nt [N [E [comp_est [Hadj [Hord Hfinal]]]]]]].
  apply adjusted_spectrum_ok in Hadj.
  destruct Hadj as [sp [maskvec [E0 [depth [xN [E1 [Hest [_ [Hfmt _]]]]]]]]].
  assert (Hdepth : depth <> 0%Z).
  { pose proof Hest as Hest'. apply estimate_depth_ok in Hest'.
    destruct Hest' as [V [Lambda [dataN [kurtv1 [idx [sub [median H]]]]]]].
    destruct H as [Hmask [_ [_ [_ [_ [_ [_ [_ [_ HN]]]]]]]]].
    apply mask_and_flatten_ok in Hmask.
    destruct Hmask as [Nx [Ny [Nz [V' [mv [_ [-> _]]]]]]].
    rewrite HN in Hfmt. apply format_int_ok_depth in Hfmt.
    destruct Hfmt as [Hd | Hd]; [exact Hd | discriminate Hd]. }
  unfold order_of_spectrum in Hord.
  bind_ok Hord. bind_ok Hord. bind_ok Hord.
  unfold estimate_order in Hord.
  destruct (criteria_idx criteria) as [i|] eqn:Hi; [|discriminate Hord].
  injection Hord as <-.
  apply criteria_idx_some in Hi. destruct Hi as [Hi Hname].
  match goal with E : criteria_curves _ _ _ = Ok _ |- _ =>
    apply criteria_curves_rows in E; destruct E as [Hp Hrows] end.
  pose proof (select_order_bounds (nth i a1 [])) as [Hle Hge].
  rewrite (Hrows i Hi) in Hle, Hge.
  unfold final_pca in Hfinal. bind_ok Hfinal.
  split; [exact Hname|].
  exists sp, Nt, maskvec, data, E0, depth, xN, (select_order (nth i a1 [])), a2.
  repeat split; try assumption; lia.
Qed.

Section ReturnedExample.

#[local] Existing Instance Exact.numerics.

Lemma returned_decomposition_witness :
  ma_pca demo_collaborators demo_data demo_mask "mdl"
  = Ok (mk_ndarray [2; 1] (map Exact.real [1; 3]%Q),
        [Exact.real 1], [Exact.real 1],
        mk_ndarray [2; 1] (map Exact.real [1; 0]%Q)) /\
  ("mdl" = "aic" \/ "mdl" = "kic" \/ "mdl" = "mdl") /\
  exists sp Nt maskvec data EigenValues depth N comp_est ppca,
    estimate_depth demo_collaborators demo_data demo_mask
    = Ok (sp, Nt, maskvec, data, EigenValues, depth, N) /\
    depth <> 0%Z /\
    pca_fit demo_collaborators comp_est data = Ok ppca /\
    1 <= Nt /\ comp_est <= Nt - 1 /\ (2 <= Nt -> 1 <= comp_est).
Proof.
  assert (H : ma_pca demo_collaborators demo_data demo_mask "mdl"
              = Ok (mk_ndarray [2; 1] (map Exact.real [1; 3]%Q),
                    [Exact.real 1], [Exact.real 1],
                    mk_ndarray [2; 1] (map Exact.real [1; 0]%Q)))
    by (vm_compute; reflexivity).
  split; [exact H|].
  exact (returned_decomposition_has_order_in_range Exact.numerics
           demo_collaborators demo_data demo_mask "mdl" _ H).
Defined.

End ReturnedExample.

(** * The decomposition that is returned (C9) *)


Section Products.

Context {num : Numerics}.





End Products.


Section FinalExample.

#[local] Existing Instance Exact.numerics.



End FinalExample.
